(** * ch.Carousel and ch.Countdown (stylejs.js): a shallow embedding

    The two widgets of [stylejs.js] are embedded as state transformers over
    records that hold the instance fields the source reads and writes.

    Conventions of the embedding.
    - Integer-valued JavaScript numbers (page numbers, item counts, the
      async budget, [limitPerPage]) are [Z]; pixel measures are exact
      rationals [Q].  Strict equality [===] on numbers is [Z.eqb] or
      [Qeq_bool].  The rationals have neither rounding nor [Infinity]/[NaN]:
      a statement whose value passes through a division names the
      hypothesis that keeps the divisor away from zero.
    - The DOM is present as far as the source reads it back (the list's
      [li] children, the pagination thumbnails, the control's text) and
      otherwise as a trace of the writes and notifications, newest last.
      The [aria-*] attributes of the Carousel ([_updateARIA] and the
      attribute lines of [_disableArrows]) are not part of the trace;
      [_updateARIA] is given apart, as the list of attributes it writes.
    - The component base ([ch.Component]) is not in the source file: the
      flag [_enabled] it maintains is a field the embedding only reads. *)

From Stdlib Require Import ZArith QArith Qround List String Ascii Bool Lia.
From Stdlib Require Import DecimalString.
Import ListNotations.

Local Open Scope string_scope.
Local Open Scope list_scope.
Local Open Scope Z_scope.

(** ** Small pieces of JavaScript used by both widgets *)

(** [String(n)] for an integer [n]. *)
Definition js_string_of_Z (n : Z) : string :=
  NilZero.string_of_int (Z.to_int n).

(** [v || d] on numbers: zero is falsy. *)
Definition js_or (v d : Z) : Z := if v =? 0 then d else v.

(** [n] occurrences of a notification in a list of names. *)
Definition count_name (name : string) (l : list string) : nat :=
  List.length (filter (String.eqb name) l).

(** * Countdown *)

Module Countdown.

Record Options : Type := {
  max : Z;
  plural : string;
  singular : string
}.

(** [Countdown.prototype._defaults]. *)
Definition _defaults : Options :=
  {| max := 500;
     plural := "# characters left.";
     singular := "# character left." |}.

(** [normalizeOptions]: a bare number becomes [{'max': num}], merged over
    the defaults by the component base. *)
Definition normalizeOptions (num : Z) : Options :=
  {| max := num; plural := plural _defaults; singular := singular _defaults |}.

Record t : Type := {
  _enabled : bool;
  _options : Options;
  (** [this._el.value], the text of the observed control *)
  value : string;
  _remaining : Z;
  (** [this._exceeded]; [None] is [undefined], its value until the first
      write *)
  _exceeded : option bool;
  (** attribute [aria-invalid] of the trigger, when set *)
  aria_invalid : option bool;
  (** class [ch-validation-error] on the trigger *)
  validation_error : bool;
  (** class [ch-countdown-exceeded] on the container *)
  countdown_exceeded : bool;
  (** the message last written into the container *)
  container_text : string;
  (** how it was written: [true] as markup, parsed as HTML
      ([insertAdjacentHTML] in [_init]), [false] as text ([innerText] in
      [_count]) *)
  container_markup : bool;
  (** names passed to [emit], oldest first *)
  emitted : list string
}.

Definition set_value (v : string) (c : t) : t :=
  {| _enabled := _enabled c; _options := _options c; value := v;
     _remaining := _remaining c; _exceeded := _exceeded c;
     aria_invalid := aria_invalid c; validation_error := validation_error c;
     countdown_exceeded := countdown_exceeded c;
     container_text := container_text c;
     container_markup := container_markup c; emitted := emitted c |}.

Definition set_remaining (r : Z) (c : t) : t :=
  {| _enabled := _enabled c; _options := _options c; value := value c;
     _remaining := r; _exceeded := _exceeded c;
     aria_invalid := aria_invalid c; validation_error := validation_error c;
     countdown_exceeded := countdown_exceeded c;
     container_text := container_text c;
     container_markup := container_markup c; emitted := emitted c |}.

Definition set_exceeded (e : bool) (c : t) : t :=
  {| _enabled := _enabled c; _options := _options c; value := value c;
     _remaining := _remaining c; _exceeded := Some e;
     aria_invalid := aria_invalid c; validation_error := validation_error c;
     countdown_exceeded := countdown_exceeded c;
     container_text := container_text c;
     container_markup := container_markup c; emitted := emitted c |}.

Definition set_error_state (b : bool) (c : t) : t :=
  {| _enabled := _enabled c; _options := _options c; value := value c;
     _remaining := _remaining c; _exceeded := _exceeded c;
     aria_invalid := Some b; validation_error := b;
     countdown_exceeded := b;
     container_text := container_text c;
     container_markup := container_markup c; emitted := emitted c |}.

Definition set_container_text (m : string) (c : t) : t :=
  {| _enabled := _enabled c; _options := _options c; value := value c;
     _remaining := _remaining c; _exceeded := _exceeded c;
     aria_invalid := aria_invalid c; validation_error := validation_error c;
     countdown_exceeded := countdown_exceeded c;
     container_text := m; container_markup := false;
     emitted := emitted c |}.

Definition emit (name : string) (c : t) : t :=
  {| _enabled := _enabled c; _options := _options c; value := value c;
     _remaining := _remaining c; _exceeded := _exceeded c;
     aria_invalid := aria_invalid c; validation_error := validation_error c;
     countdown_exceeded := countdown_exceeded c;
     container_text := container_text c;
     container_markup := container_markup c;
     emitted := (emitted c ++ [name])%list |}.

(** [message.replace(/\#/g, n)]: every hash becomes the number. *)
Fixpoint replace_all_hash (n : string) (m : string) : string :=
  match m with
  | EmptyString => EmptyString
  | String a rest =>
      if Ascii.eqb a "#"%char
      then (n ++ replace_all_hash n rest)%string
      else String a (replace_all_hash n rest)
  end.

(** [message.replace('#', n)]: only the first hash becomes the number. *)
Fixpoint replace_first_hash (n : string) (m : string) : string :=
  match m with
  | EmptyString => EmptyString
  | String a rest =>
      if Ascii.eqb a "#"%char
      then (n ++ rest)%string
      else String a (replace_first_hash n rest)
  end.

(** [Countdown.prototype._contentLength]. *)
Definition _contentLength (c : t) : Z := Z.of_nat (String.length (value c)).

(** [Countdown.prototype._removeError]. *)
Definition _removeError (c : t) : t := set_error_state false c.

(** [Countdown.prototype._count]. *)
Definition _count (c : t) : t :=
  if negb (_enabled c) then c
  else
    let length := _contentLength c in
    let c := set_remaining (max (_options c) - length) c in
    let c :=
      if length <=? max (_options c) then
        match _exceeded c with
        | Some true => _removeError (set_exceeded false c)
        | _ => c
        end
      else if max (_options c) <? length then
        set_error_state true (set_exceeded true (emit "exceed" c))
      else c in
    let message :=
      replace_all_hash (js_string_of_Z (_remaining c))
        (if negb (_remaining c =? 1) then plural (_options c)
         else singular (_options c)) in
    set_container_text message c.

(** The event names [_init] binds [_count] to. *)
Definition listened : list string :=
  ["keyup"; "keypress"; "keydown"; "input"; "paste"; "cut"].

(** [Countdown.prototype._init], given the flag set by the component base
    and the text the control holds at construction. The message goes into
    the container through [insertAdjacentHTML]: the string is markup, what
    the container shows is its parse. *)
Definition _init (enabled : bool) (o : Options) (text : string) : t :=
  let remaining := max o - Z.of_nat (String.length text) in
  let message := if remaining =? 1 then singular o else plural o in
  {| _enabled := enabled; _options := o; value := text;
     _remaining := remaining; _exceeded := None;
     aria_invalid := None; validation_error := false;
     countdown_exceeded := false;
     container_text := replace_first_hash (js_string_of_Z remaining) message;
     container_markup := true;
     emitted := [] |}.

(** An event [name] reaches the trigger: the listeners bound by [_init]
    run. *)
Definition dispatch (name : string) (c : t) : t :=
  if existsb (String.eqb name) listened then _count c else c.

(** The control's text becomes [text] and the event [name] is fired. *)
Definition input_event (ev : string * string) (c : t) : t :=
  dispatch (fst ev) (set_value (snd ev) c).

(** A sequence of events, in order. *)
Definition run (evs : list (string * string)) (c : t) : t :=
  fold_left (fun c ev => input_event ev c) evs c.

(** Text length of an event. *)
Definition text_length (ev : string * string) : Z :=
  Z.of_nat (String.length (snd ev)).

(** Events of a sequence whose text is longer than [m]. *)
Definition over (m : Z) (evs : list (string * string)) : nat :=
  List.length (filter (fun ev => m <? text_length ev) evs).

(** Crossings of a sequence of text lengths from [<= m] to [> m], the
    previous length being [prev]. *)
Fixpoint crossings (m prev : Z) (lens : list Z) : nat :=
  match lens with
  | [] => O
  | l :: rest =>
      if (prev <=? m) && (m <? l)
      then S (crossings m l rest)
      else crossings m l rest
  end.

(** [remaining] and [exceeded] agree with the current text. *)
Definition consistent (c : t) : Prop :=
  _remaining c = max (_options c) - _contentLength c /\
  (_exceeded c = Some true <-> max (_options c) < _contentLength c).

(** C2 as stated: one [exceed] per crossing of [max] from below. *)
Definition exceed_once_per_crossing (c : t) (evs : list (string * string))
  : Prop :=
  count_name "exceed" (emitted (run evs c)) =
    (count_name "exceed" (emitted c)
     + crossings (max (_options c)) (_contentLength c)
         (map text_length evs))%nat.

(** Number of hashes in a message template. *)
Fixpoint hashes (m : string) : nat :=
  match m with
  | EmptyString => O
  | String a rest => if Ascii.eqb a "#"%char then S (hashes rest) else hashes rest
  end.

(** The three marks of the error state go together with [_exceeded]. *)
Definition marks_agree (c : t) : Prop :=
  countdown_exceeded c = validation_error c /\
  (validation_error c = true <-> _exceeded c = Some true) /\
  (aria_invalid c = Some true <-> _exceeded c = Some true).

End Countdown.

(** * Carousel *)

Module Carousel.

Record Options : Type := {
  async : Z;
  arrows : bool;
  pagination : bool;
  fx : bool;
  autoHeight : bool;
  autoMargin : bool;
  (** [None] when the option is not configured ([undefined]) *)
  limitPerPage : option Z
}.

(** [Carousel.prototype._defaults]. *)
Definition _defaults : Options :=
  {| async := 0; arrows := true; pagination := false; fx := true;
     autoHeight := true; autoMargin := true; limitPerPage := None |}.

(** Inline style of an item: [width], [height] and [margin-right]. The
    source prints the numbers with [toFixed]; the embedding keeps them
    exact. *)
Record Style : Type := {
  width : Q;
  height : option Q;
  margin_right : option Q
}.

(** An [li] of the list: one from the markup, or a placeholder made by
    [_loadAsyncItems] with the style it was created with. *)
Inductive Item : Type :=
| Li
| AsyncLi (st : Style).

(** A thumbnail of the pagination: [data-page] and [aria-selected]. *)
Record Thumb : Type := {
  data_page : Z;
  selected : bool
}.

(** Writes to the DOM that the source never reads back, and
    notifications. *)
Inductive Effect : Type :=
| Emit (name : string) (collection : list Item)
(** class [ch-carousel-nofx] added to the list *)
| AddNoFx
(** [setTimeout] of the removal of [ch-carousel-nofx], delay 0 *)
| RemoveNoFxLater
(** [position:absolute;left:0;] appended to the list's style *)
| ListAbsolute
(** [width] of the list *)
| ListWidth (px : Q)
(** the [style] attribute written to each of [n] items *)
| ItemsStyle (st : Style) (n : nat)
(** height of the mask taken from the height of the list *)
| MaskHeight
(** [translateX] (or [left]) of the list *)
| Translate (px : Q)
(** class [ch-carousel-disabled] on the two arrows *)
| DisableArrows (prev next : bool)
(** the arrows inserted into the component *)
| InsertArrows.

Record t : Type := {
  _enabled : bool;
  _options : Options;
  (** [tiny.support.transition] *)
  transition : bool;
  (** the [li] elements under [this._list], as the DOM has them *)
  list_children : list Item;
  (** [this._items], the static collection last queried *)
  _items : list Item;
  _maskWidth : Q;
  _itemWidth : Q;
  _itemOuterWidth : Z;
  _itemExtraWidth : Q;
  _itemHeight : Q;
  _itemMargin : Q;
  _arrowsCreated : bool;
  _paginationCreated : bool;
  _limitPerPage : Z;
  _currentPage : Z;
  _pages : Z;
  _pageWidth : Q;
  _async : Z;
  (** [this._pagination.children] *)
  pagination_children : list Thumb;
  trace : list Effect
}.

Definition set_list_children (v : list Item) (s : t) : t :=
  {| _enabled := _enabled s; _options := _options s;
     transition := transition s; list_children := v; _items := _items s;
     _maskWidth := _maskWidth s; _itemWidth := _itemWidth s;
     _itemOuterWidth := _itemOuterWidth s;
     _itemExtraWidth := _itemExtraWidth s; _itemHeight := _itemHeight s;
     _itemMargin := _itemMargin s; _arrowsCreated := _arrowsCreated s;
     _paginationCreated := _paginationCreated s;
     _limitPerPage := _limitPerPage s; _currentPage := _currentPage s;
     _pages := _pages s; _pageWidth := _pageWidth s; _async := _async s;
     pagination_children := pagination_children s; trace := trace s |}.

Definition set_items (v : list Item) (s : t) : t :=
  {| _enabled := _enabled s; _options := _options s;
     transition := transition s; list_children := list_children s;
     _items := v; _maskWidth := _maskWidth s; _itemWidth := _itemWidth s;
     _itemOuterWidth := _itemOuterWidth s;
     _itemExtraWidth := _itemExtraWidth s; _itemHeight := _itemHeight s;
     _itemMargin := _itemMargin s; _arrowsCreated := _arrowsCreated s;
     _paginationCreated := _paginationCreated s;
     _limitPerPage := _limitPerPage s; _currentPage := _currentPage s;
     _pages := _pages s; _pageWidth := _pageWidth s; _async := _async s;
     pagination_children := pagination_children s; trace := trace s |}.

Definition set_maskWidth (v : Q) (s : t) : t :=
  {| _enabled := _enabled s; _options := _options s;
     transition := transition s; list_children := list_children s;
     _items := _items s; _maskWidth := v; _itemWidth := _itemWidth s;
     _itemOuterWidth := _itemOuterWidth s;
     _itemExtraWidth := _itemExtraWidth s; _itemHeight := _itemHeight s;
     _itemMargin := _itemMargin s; _arrowsCreated := _arrowsCreated s;
     _paginationCreated := _paginationCreated s;
     _limitPerPage := _limitPerPage s; _currentPage := _currentPage s;
     _pages := _pages s; _pageWidth := _pageWidth s; _async := _async s;
     pagination_children := pagination_children s; trace := trace s |}.

Definition set_itemExtraWidth (v : Q) (s : t) : t :=
  {| _enabled := _enabled s; _options := _options s;
     transition := transition s; list_children := list_children s;
     _items := _items s; _maskWidth := _maskWidth s;
     _itemWidth := _itemWidth s; _itemOuterWidth := _itemOuterWidth s;
     _itemExtraWidth := v; _itemHeight := _itemHeight s;
     _itemMargin := _itemMargin s; _arrowsCreated := _arrowsCreated s;
     _paginationCreated := _paginationCreated s;
     _limitPerPage := _limitPerPage s; _currentPage := _currentPage s;
     _pages := _pages s; _pageWidth := _pageWidth s; _async := _async s;
     pagination_children := pagination_children s; trace := trace s |}.

Definition set_itemMargin (v : Q) (s : t) : t :=
  {| _enabled := _enabled s; _options := _options s;
     transition := transition s; list_children := list_children s;
     _items := _items s; _maskWidth := _maskWidth s;
     _itemWidth := _itemWidth s; _itemOuterWidth := _itemOuterWidth s;
     _itemExtraWidth := _itemExtraWidth s; _itemHeight := _itemHeight s;
     _itemMargin := v; _arrowsCreated := _arrowsCreated s;
     _paginationCreated := _paginationCreated s;
     _limitPerPage := _limitPerPage s; _currentPage := _currentPage s;
     _pages := _pages s; _pageWidth := _pageWidth s; _async := _async s;
     pagination_children := pagination_children s; trace := trace s |}.

Definition set_arrowsCreated (v : bool) (s : t) : t :=
  {| _enabled := _enabled s; _options := _options s;
     transition := transition s; list_children := list_children s;
     _items := _items s; _maskWidth := _maskWidth s;
     _itemWidth := _itemWidth s; _itemOuterWidth := _itemOuterWidth s;
     _itemExtraWidth := _itemExtraWidth s; _itemHeight := _itemHeight s;
     _itemMargin := _itemMargin s; _arrowsCreated := v;
     _paginationCreated := _paginationCreated s;
     _limitPerPage := _limitPerPage s; _currentPage := _currentPage s;
     _pages := _pages s; _pageWidth := _pageWidth s; _async := _async s;
     pagination_children := pagination_children s; trace := trace s |}.

Definition set_paginationCreated (v : bool) (s : t) : t :=
  {| _enabled := _enabled s; _options := _options s;
     transition := transition s; list_children := list_children s;
     _items := _items s; _maskWidth := _maskWidth s;
     _itemWidth := _itemWidth s; _itemOuterWidth := _itemOuterWidth s;
     _itemExtraWidth := _itemExtraWidth s; _itemHeight := _itemHeight s;
     _itemMargin := _itemMargin s; _arrowsCreated := _arrowsCreated s;
     _paginationCreated := v; _limitPerPage := _limitPerPage s;
     _currentPage := _currentPage s; _pages := _pages s;
     _pageWidth := _pageWidth s; _async := _async s;
     pagination_children := pagination_children s; trace := trace s |}.

Definition set_limitPerPage (v : Z) (s : t) : t :=
  {| _enabled := _enabled s; _options := _options s;
     transition := transition s; list_children := list_children s;
     _items := _items s; _maskWidth := _maskWidth s;
     _itemWidth := _itemWidth s; _itemOuterWidth := _itemOuterWidth s;
     _itemExtraWidth := _itemExtraWidth s; _itemHeight := _itemHeight s;
     _itemMargin := _itemMargin s; _arrowsCreated := _arrowsCreated s;
     _paginationCreated := _paginationCreated s; _limitPerPage := v;
     _currentPage := _currentPage s; _pages := _pages s;
     _pageWidth := _pageWidth s; _async := _async s;
     pagination_children := pagination_children s; trace := trace s |}.

Definition set_currentPage (v : Z) (s : t) : t :=
  {| _enabled := _enabled s; _options := _options s;
     transition := transition s; list_children := list_children s;
     _items := _items s; _maskWidth := _maskWidth s;
     _itemWidth := _itemWidth s; _itemOuterWidth := _itemOuterWidth s;
     _itemExtraWidth := _itemExtraWidth s; _itemHeight := _itemHeight s;
     _itemMargin := _itemMargin s; _arrowsCreated := _arrowsCreated s;
     _paginationCreated := _paginationCreated s;
     _limitPerPage := _limitPerPage s; _currentPage := v;
     _pages := _pages s; _pageWidth := _pageWidth s; _async := _async s;
     pagination_children := pagination_children s; trace := trace s |}.

Definition set_pages (v : Z) (s : t) : t :=
  {| _enabled := _enabled s; _options := _options s;
     transition := transition s; list_children := list_children s;
     _items := _items s; _maskWidth := _maskWidth s;
     _itemWidth := _itemWidth s; _itemOuterWidth := _itemOuterWidth s;
     _itemExtraWidth := _itemExtraWidth s; _itemHeight := _itemHeight s;
     _itemMargin := _itemMargin s; _arrowsCreated := _arrowsCreated s;
     _paginationCreated := _paginationCreated s;
     _limitPerPage := _limitPerPage s; _currentPage := _currentPage s;
     _pages := v; _pageWidth := _pageWidth s; _async := _async s;
     pagination_children := pagination_children s; trace := trace s |}.

Definition set_pageWidth (v : Q) (s : t) : t :=
  {| _enabled := _enabled s; _options := _options s;
     transition := transition s; list_children := list_children s;
     _items := _items s; _maskWidth := _maskWidth s;
     _itemWidth := _itemWidth s; _itemOuterWidth := _itemOuterWidth s;
     _itemExtraWidth := _itemExtraWidth s; _itemHeight := _itemHeight s;
     _itemMargin := _itemMargin s; _arrowsCreated := _arrowsCreated s;
     _paginationCreated := _paginationCreated s;
     _limitPerPage := _limitPerPage s; _currentPage := _currentPage s;
     _pages := _pages s; _pageWidth := v; _async := _async s;
     pagination_children := pagination_children s; trace := trace s |}.

Definition set_async (v : Z) (s : t) : t :=
  {| _enabled := _enabled s; _options := _options s;
     transition := transition s; list_children := list_children s;
     _items := _items s; _maskWidth := _maskWidth s;
     _itemWidth := _itemWidth s; _itemOuterWidth := _itemOuterWidth s;
     _itemExtraWidth := _itemExtraWidth s; _itemHeight := _itemHeight s;
     _itemMargin := _itemMargin s; _arrowsCreated := _arrowsCreated s;
     _paginationCreated := _paginationCreated s;
     _limitPerPage := _limitPerPage s; _currentPage := _currentPage s;
     _pages := _pages s; _pageWidth := _pageWidth s; _async := v;
     pagination_children := pagination_children s; trace := trace s |}.

Definition set_pagination_children (v : list Thumb) (s : t) : t :=
  {| _enabled := _enabled s; _options := _options s;
     transition := transition s; list_children := list_children s;
     _items := _items s; _maskWidth := _maskWidth s;
     _itemWidth := _itemWidth s; _itemOuterWidth := _itemOuterWidth s;
     _itemExtraWidth := _itemExtraWidth s; _itemHeight := _itemHeight s;
     _itemMargin := _itemMargin s; _arrowsCreated := _arrowsCreated s;
     _paginationCreated := _paginationCreated s;
     _limitPerPage := _limitPerPage s; _currentPage := _currentPage s;
     _pages := _pages s; _pageWidth := _pageWidth s; _async := _async s;
     pagination_children := v; trace := trace s |}.

Definition set_trace (v : list Effect) (s : t) : t :=
  {| _enabled := _enabled s; _options := _options s;
     transition := transition s; list_children := list_children s;
     _items := _items s; _maskWidth := _maskWidth s;
     _itemWidth := _itemWidth s; _itemOuterWidth := _itemOuterWidth s;
     _itemExtraWidth := _itemExtraWidth s; _itemHeight := _itemHeight s;
     _itemMargin := _itemMargin s; _arrowsCreated := _arrowsCreated s;
     _paginationCreated := _paginationCreated s;
     _limitPerPage := _limitPerPage s; _currentPage := _currentPage s;
     _pages := _pages s; _pageWidth := _pageWidth s; _async := _async s;
     pagination_children := pagination_children s; trace := v |}.

(** ** Completions

    A call returns normally with a value and the state it leaves, or is
    cut short by an uncaught [TypeError] (the writes made so far stay), or
    never returns. *)

Inductive Completion (A : Type) : Type :=
| Normal (a : A) (s : t)
| Throw (s : t)
| Diverge.

Arguments Normal {A} a s.
Arguments Throw {A} s.
Arguments Diverge {A}.

Definition M (A : Type) : Type := t -> Completion A.

Definition ret {A : Type} (a : A) : M A := fun s => Normal a s.

Definition bind {A B : Type} (m : M A) (k : A -> M B) : M B :=
  fun s =>
    match m s with
    | Normal a s' => k a s'
    | Throw s' => Throw s'
    | Diverge => Diverge
    end.

Notation "x <- m ;; k" := (bind m (fun x => k))
  (at level 61, m at next level, right associativity).
Notation "m ;; k" := (bind m (fun _ => k))
  (at level 61, right associativity).

Definition modify (f : t -> t) : M unit := fun s => Normal tt (f s).

(** The state a completion leaves, if any. *)
Definition final {A : Type} (c : Completion A) : option t :=
  match c with
  | Normal _ s => Some s
  | Throw s => Some s
  | Diverge => None
  end.

Definition log (e : Effect) : M unit :=
  fun s => Normal tt (set_trace (trace s ++ [e]) s).

(** [this.emit(name, collection)]. *)
Definition emit (name : string) (collection : list Item) : M unit :=
  log (Emit name collection).

Definition Qlt_bool (x y : Q) : bool := negb (Qle_bool y x).

(** [collection[i]]: [undefined] outside of the collection. *)
Definition js_index {A : Type} (l : list A) (i : Z) : option A :=
  if i <? 0 then None else nth_error l (Z.to_nat i).

(** [Array.prototype.slice.call(l, -n)]. *)
Definition slice_last {A : Type} (l : list A) (n : Z) : list A :=
  if n =? 0 then l else skipn (List.length l - Z.to_nat n) l.

(** ** Private methods *)

(** [Carousel.prototype._translate]: the same displacement goes to
    [transform] or to [left]. *)
Definition _translate (displacement : Q) : M unit :=
  log (Translate displacement).

(** [Carousel.prototype._disableArrows]. *)
Definition _disableArrows (prev next : bool) : M unit :=
  log (DisableArrows prev next).

(** [Carousel.prototype._addArrows]. *)
Definition _addArrows : M unit :=
  log InsertArrows ;; modify (set_arrowsCreated true).

(** [Carousel.prototype._updateArrows]. *)
Definition _updateArrows : M unit :=
  fun s =>
    if negb (_arrowsCreated s) then Normal tt s
    else if _pages s =? 1 then _disableArrows true true s
    else if _currentPage s =? 1 then _disableArrows true false s
    else if _currentPage s =? _pages s then _disableArrows false true s
    else _disableArrows false false s.

(** [Carousel.prototype._removePagination]. *)
Definition _removePagination : M unit :=
  fun s =>
    if negb (_paginationCreated s) then Normal tt s
    else Normal tt (set_paginationCreated false (set_pagination_children [] s)).

(** [while (page) { thumbs.unshift(<span ...>); page -= 1; }], [n] turns. *)
Fixpoint while_page (n : nat) (current page : Z) (thumbs : list Thumb)
  : list Thumb :=
  match n with
  | O => thumbs
  | S k =>
      if page =? 0 then thumbs
      else while_page k current (page - 1)
             ({| data_page := page; selected := page =? current |} :: thumbs)
  end.

(** [Carousel.prototype._addPagination]. Counting down from a negative
    number of pages never reaches zero. *)
Definition _addPagination : M unit :=
  (fun s => if _paginationCreated s then _removePagination s else Normal tt s) ;;
  fun s =>
    let page := _pages s in
    if page <? 0 then Diverge
    else
      Normal tt
        (set_paginationCreated true
           (set_pagination_children
              (while_page (Z.to_nat page) (_currentPage s) page []) s)).

(** [Carousel.prototype._standbyFX]. *)
Definition _standbyFX {A : Type} (callback : M A) : M A :=
  fun s =>
    if fx (_options s) && transition s
    then (log AddNoFx ;; a <- callback ;; log RemoveNoFxLater ;; ret a) s
    else callback s.

(** [aria-selected] of the thumbnail at index [i]. *)
Fixpoint mark (i : nat) (b : bool) (l : list Thumb) : list Thumb :=
  match l, i with
  | [], _ => []
  | th :: rest, O => {| data_page := data_page th; selected := b |} :: rest
  | th :: rest, S k => th :: mark k b rest
  end.

(** [Carousel.prototype._switchPagination]: [fromItem.setAttribute] and
    [toItem.setAttribute] throw on [undefined]. *)
Definition _switchPagination (from to : Z) : M unit :=
  fun s =>
    if negb (_paginationCreated s) then Normal tt s
    else
      let children := pagination_children s in
      let fromItem := js_index children (from - 1) in
      let toItem := js_index children (to - 1) in
      match fromItem with
      | None => Throw s
      | Some _ =>
          let s := set_pagination_children
                     (mark (Z.to_nat (from - 1)) false children) s in
          match toItem with
          | None => Throw s
          | Some _ =>
              Normal tt
                (set_pagination_children
                   (mark (Z.to_nat (to - 1)) true (pagination_children s)) s)
          end
      end.

(** [while (amount) { items += item; amount -= 1; counter += 1; }],
    [n] turns; the triple is [(items, amount, counter)]. *)
Fixpoint while_amount (n : nat) (item : Item) (st : list Item * Z * Z)
  : list Item * Z * Z :=
  match n with
  | O => st
  | S k =>
      let '(items, amount, counter) := st in
      if amount =? 0 then st
      else while_amount k item (items ++ [item], amount - 1, counter + 1)
  end.

(** The placeholder [_loadAsyncItems] builds. *)
Definition async_item (s : t) : Item :=
  let width := (_itemWidth s + _itemExtraWidth s)%Q in
  let height := ((width * _itemHeight s) / _itemWidth s)%Q in
  AsyncLi
    {| width := width;
       height := if autoHeight (_options s) then Some height else None;
       margin_right :=
         if autoMargin (_options s) then Some (_itemMargin s) else None |}.

(** [Carousel.prototype._loadAsyncItems]. Counting down from a negative
    amount never reaches zero. *)
Definition _loadAsyncItems : M unit :=
  fun s =>
    if _async s =? 0 then Normal tt s
    else
      let total := _currentPage s * _limitPerPage s in
      let amount := total - Z.of_nat (List.length (_items s)) in
      let item := async_item s in
      if amount <? 1 then Normal tt s
      else
        let amount := if _async s <? amount then _async s else amount in
        if amount <? 0 then Diverge
        else
          let '(items, amount, counter) :=
            while_amount (Z.to_nat amount) item ([], amount, 0) in
          let s := set_list_children (list_children s ++ items) s in
          let s := set_items (list_children s) s in
          let s := set_async (_async s - amount) s in
          emit "itemsadd" (slice_last (_items s) counter) s.

(** [Carousel.prototype._updatePages]. *)
Definition _updatePages : M unit :=
  modify (fun s =>
    set_pages
      (Qceiling (inject_Z (Z.of_nat (List.length (_items s)) + _async s)
                 / inject_Z (_limitPerPage s))) s) ;;
  _loadAsyncItems ;;
  _updateArrows ;;
  fun s => if pagination (_options s) then _addPagination s else Normal tt s.

(** ** Public methods *)

(** What a public method returns: the instance, or a page number. *)
Inductive Ret : Type :=
| This
| PageNumber (p : Z).

(** [Carousel.prototype.select]; [None] is a call without argument. *)
Definition select (page : option Z) : M Ret :=
  fun s =>
    match page with
    | None => Normal (PageNumber (_currentPage s)) s
    | Some page =>
        if negb (_enabled s) || (page =? _currentPage s)
           || (page <? 1) || (_pages s <? page)
        then Normal This s
        else
          (_translate (- _pageWidth s * inject_Z (page - 1)) ;;
           _switchPagination (_currentPage s) page ;;
           modify (set_currentPage page) ;;
           _updateArrows ;;
           _loadAsyncItems ;;
           emit "select" [] ;;
           ret This) s
    end.

(** [Carousel.prototype.prev]. *)
Definition prev : M Ret :=
  (fun s => select (Some (_currentPage s - 1)) s) ;;
  emit "prev" [] ;;
  ret This.

(** [Carousel.prototype.next]. *)
Definition next : M Ret :=
  (fun s => select (Some (_currentPage s + 1)) s) ;;
  emit "next" [] ;;
  ret This.

(** The local [limitPerPage] of [_updateLimitPerPage] when the guard on
    the stored value is reached. *)
Definition new_limitPerPage (s : t) : Z :=
  let max := limitPerPage (_options s) in
  let limitPerPage :=
    js_or (Qfloor (_maskWidth s / inject_Z (_itemOuterWidth s))) 1 in
  match max with
  | Some max => if max <? limitPerPage then max else limitPerPage
  | None => limitPerPage
  end.

(** [Carousel.prototype._updateLimitPerPage]. *)
Definition _updateLimitPerPage : M unit :=
  fun s =>
    let limitPerPage := new_limitPerPage s in
    if limitPerPage =? _limitPerPage s then Normal tt s
    else
      let firstItemOnPage := (_currentPage s - 1) * _limitPerPage s + 1 in
      (modify (set_limitPerPage limitPerPage) ;;
       _updatePages ;;
       select (Some (Qceiling (inject_Z firstItemOnPage
                               / inject_Z limitPerPage))) ;;
       ret tt) s.

(** The locals of [_updateDistribution] computed before its guard. *)
Definition moreThanOne (s : t) : bool := 1 <? _limitPerPage s.

Definition freeSpace (s : t) : Q :=
  (_maskWidth s - inject_Z (_itemOuterWidth s) * inject_Z (_limitPerPage s))%Q.

Definition freeSpaceDistribution (s : t) : Q :=
  if autoMargin (_options s)
  then (freeSpace s / inject_Z (_limitPerPage s) / 2)%Q
  else (freeSpace s / inject_Z (_limitPerPage s))%Q.

Definition extraWidth (s : t) : Q :=
  if moreThanOne s then freeSpaceDistribution s else freeSpace s.

(** The guard of [_updateDistribution]. *)
Definition unchanged_distribution (s : t) : bool :=
  Qeq_bool (extraWidth s) (_itemExtraWidth s) && Qlt_bool 0 (extraWidth s).

(** [Carousel.prototype._updateDistribution]. *)
Definition _updateDistribution : M unit :=
  fun s =>
    let moreThanOne := moreThanOne s in
    let freeSpace := freeSpace s in
    let extraWidth := extraWidth s in
    if unchanged_distribution s then Normal tt s
    else
      let spaces := if moreThanOne then _limitPerPage s - 1 else 0 in
      let width := (_itemWidth s + extraWidth)%Q in
      (modify (set_itemExtraWidth extraWidth) ;;
       modify (set_itemMargin
                 (if autoMargin (_options s) && moreThanOne
                  then (freeSpace / inject_Z spaces / 2)%Q else 0%Q)) ;;
       modify (fun s =>
         set_pageWidth
           ((inject_Z (_itemOuterWidth s) + extraWidth + _itemMargin s)
            * inject_Z (_limitPerPage s))%Q s) ;;
       _standbyFX (fun s =>
         log (ListWidth (_pageWidth s * inject_Z (_pages s))%Q) s) ;;
       (fun s =>
          log (ItemsStyle
                 {| width := width;
                    height :=
                      if autoHeight (_options s)
                      then Some ((width * _itemHeight s) / _itemWidth s)%Q
                      else None;
                    margin_right :=
                      if autoMargin (_options s)
                      then Some (_itemMargin s) else None |}
                 (List.length (_items s))) s) ;;
       log MaskHeight ;;
       _standbyFX (fun s =>
         _translate (- _pageWidth s * inject_Z (_currentPage s - 1))%Q s)) s.

(** [Carousel.prototype.refresh], given the width the mask measures
    now. *)
Definition refresh (maskWidth : Q) : M Ret :=
  (fun s =>
     if negb (Qeq_bool maskWidth (_maskWidth s))
     then (modify (set_maskWidth maskWidth) ;;
           _updateLimitPerPage ;;
           _updateDistribution ;;
           emit "refresh" []) s
     else Normal tt s) ;;
  (fun s =>
     if negb (Nat.eqb (List.length (list_children s)) (List.length (_items s)))
     then (modify (fun s => set_items (list_children s) s) ;;
           _updatePages ;;
           (fun s =>
              if _pages s <? _currentPage s
              then (_standbyFX (select (Some (_pages s))) ;; ret tt) s
              else Normal tt s) ;;
           emit "refresh" []) s
     else Normal tt s) ;;
  ret This.

(** Measures taken from the DOM at construction. *)
Record Measures : Type := {
  mask_width : Q;
  item_width : Q;
  item_css_width : Z;
  item_height : Q
}.

(** The fields as [_init] sets them before it calls any method. *)
Definition fresh (enabled support : bool) (o : Options) (lis : nat)
  (m : Measures) : t :=
  {| _enabled := enabled; _options := o; transition := support;
     list_children := repeat Li lis; _items := repeat Li lis;
     _maskWidth := mask_width m; _itemWidth := item_width m;
     _itemOuterWidth := item_css_width m; _itemExtraWidth := 0%Q;
     _itemHeight := item_height m; _itemMargin := 0%Q;
     _arrowsCreated := false; _paginationCreated := false;
     _limitPerPage := 0; _currentPage := 1; _pages := 0;
     _pageWidth := 0%Q; _async := async o;
     pagination_children := []; trace := [] |}.

(** [Carousel.prototype._init] on an element whose list has [lis] items,
    with the flag [enabled] as the component base sets it. *)
Definition _init (enabled support : bool) (o : Options) (lis : nat)
  (m : Measures) : Completion unit :=
  ((if negb (fx o) then log AddNoFx else ret tt) ;;
   (if negb support then log ListAbsolute else ret tt) ;;
   (if pagination o then _addPagination else ret tt) ;;
   (if arrows o then _addArrows else ret tt) ;;
   _updateLimitPerPage ;;
   _updateDistribution) (fresh enabled support o lis m).

(** Something outside the component replaces the list's children. *)
Definition dom_replace_children (lis : list Item) (s : t) : t :=
  set_list_children lis s.

(** ** Observations on the trace *)

Definition emitted_name (e : Effect) : list string :=
  match e with
  | Emit name _ => [name]
  | _ => []
  end.

(** Names of the notifications emitted so far, oldest first. *)
Definition emitted (s : t) : list string := flat_map emitted_name (trace s).

Definition translate_of (e : Effect) : list Q :=
  match e with
  | Translate px => [px]
  | _ => []
  end.

(** The displacements written to the list so far, oldest first. *)
Definition translations (s : t) : list Q := flat_map translate_of (trace s).

Definition added_of (e : Effect) : Z :=
  match e with
  | Emit name collection =>
      if String.eqb name "itemsadd"
      then Z.of_nat (List.length collection) else 0
  | _ => 0
  end.

(** Number of items handed out through [itemsadd] so far. *)
Definition injected (s : t) : Z :=
  fold_right (fun e n => added_of e + n) 0 (trace s).

(** ** Example instances *)

Definition measures (mask : Q) : Measures :=
  {| mask_width := mask; item_width := 200%Q; item_css_width := 200;
     item_height := 100%Q |}.

Definition with_pagination : Options :=
  {| async := 0; arrows := true; pagination := true; fx := true;
     autoHeight := true; autoMargin := true; limitPerPage := None |}.

Definition with_async (n : Z) : Options :=
  {| async := n; arrows := true; pagination := false; fx := true;
     autoHeight := true; autoMargin := true; limitPerPage := None |}.

Definition with_limit (n : Z) : Options :=
  {| async := 0; arrows := true; pagination := false; fx := true;
     autoHeight := true; autoMargin := true; limitPerPage := Some n |}.

(** The state a completion leaves, [s] when there is none. *)
Definition state_or {A : Type} (s : t) (c : Completion A) : t :=
  match final c with
  | Some s' => s'
  | None => s
  end.

(** Ten items of 200px behind a mask of 600px, defaults, enabled. *)
Definition ten_items : t :=
  let s := fresh true true _defaults 10 (measures 600) in
  state_or s (_init true true _defaults 10 (measures 600)).

(** C1 as stated: the early return happens exactly when the derived
    extra width equals the stored one and is zero. *)
Definition skips_when_zero (s : t) : Prop :=
  _updateDistribution s = Normal tt s <->
  (extraWidth s == _itemExtraWidth s /\ extraWidth s == 0)%Q.

(** Three items of 200px fill a mask of 600px: before the first
    distribution the derived and the stored extra width are both zero. *)
Definition exact_fit : t :=
  let s := fresh true true _defaults 10 (measures 600) in
  state_or s (_updateLimitPerPage s).

(** Two items of 200px behind a mask of 480px: 80px are free. *)
Definition loose_fit : t :=
  let s := fresh true true _defaults 6 (measures 480) in
  state_or s (_updateLimitPerPage s).

(** Items [_loadAsyncItems] still needs to complete the current page. *)
Definition needed (s : t) : Z :=
  _currentPage s * _limitPerPage s - Z.of_nat (List.length (_items s)).

(** The state after [counter] placeholders went in. *)
Definition with_placeholders (counter : Z) (s : t) : t :=
  let s1 :=
    set_list_children
      (list_children s ++ repeat (async_item s) (Z.to_nat counter)) s in
  let s2 := set_items (list_children s1) s1 in
  let s3 := set_async (_async s2 - 0) s2 in
  set_trace (trace s3 ++ [Emit "itemsadd" (slice_last (_items s3) counter)]) s3.

(** C4 as stated: after [_updateLimitPerPage] the items per page are
    [max(1, floor(W / Iw))] clamped to the option, and at least 1. *)
Definition at_least_one_per_page (s : t) : Prop :=
  (0 <= _maskWidth s)%Q ->
  0 < _itemOuterWidth s ->
  forall s',
    final (_updateLimitPerPage s) = Some s' ->
    let fit :=
      Z.max 1 (Qfloor (_maskWidth s / inject_Z (_itemOuterWidth s))) in
    _limitPerPage s' =
      match limitPerPage (_options s) with
      | Some M => Z.min M fit
      | None => fit
      end
    /\ 1 <= _limitPerPage s'.

(** ** [_updateARIA]

    The attributes [_updateARIA] writes to the items, as a list in the
    order of the items; the page of an item is [Math.floor(i / limitPerPage)
    + 1]. *)




(** ** Relations between the state before and after a call *)

(** Every state the call [m] can leave from [s], thrown or not, is related
    to [s] by [R]. *)
Definition keeps_at {A : Type} (R : t -> t -> Prop) (m : M A) (s : t) : Prop :=
  forall s', final (m s) = Some s' -> R s s'.

Definition keeps {A : Type} (R : t -> t -> Prop) (m : M A) : Prop :=
  forall s, keeps_at R m s.

(** The collection [_items] has as many elements as the list has
    children. *)
Definition in_step (s : t) : Prop :=
  List.length (list_children s) = List.length (_items s).

(** What [select], [prev] and [next] leave alone, also when they throw. *)
Definition steady (s s' : t) : Prop :=
  _enabled s' = _enabled s /\
  _options s' = _options s /\
  _pages s' = _pages s /\
  _limitPerPage s' = _limitPerPage s /\
  _pageWidth s' = _pageWidth s /\
  _maskWidth s' = _maskWidth s /\
  _async s' = _async s /\
  _arrowsCreated s' = _arrowsCreated s /\
  _paginationCreated s' = _paginationCreated s /\
  List.length (pagination_children s') = List.length (pagination_children s) /\
  (in_step s -> in_step s').

(** What no method changes. *)
Definition settled (s s' : t) : Prop :=
  _enabled s' = _enabled s /\
  _options s' = _options s /\
  _maskWidth s' = _maskWidth s /\
  _async s' = _async s /\
  (in_step s -> in_step s').

(** The current page lies between 1 and the number of pages. *)
Definition page_in_range (s : t) : Prop :=
  1 <= _currentPage s <= _pages s.

(** When there is a pagination, it has one thumbnail per page. *)
Definition thumb_per_page (s : t) : Prop :=
  _paginationCreated s = true ->
  Z.of_nat (List.length (pagination_children s)) = _pages s.

(** The thumbnail [_addPagination] makes for page [k]. *)
Definition thumb (current : Z) (k : nat) : Thumb :=
  {| data_page := Z.of_nat k; selected := Z.of_nat k =? current |}.

(** [steady], and the current page is as before. *)
Definition calm (s s' : t) : Prop :=
  steady s s' /\ _currentPage s' = _currentPage s.

(** [steady], and the current page is as before or is [page]. *)
Definition turned (page : Z) (s s' : t) : Prop :=
  steady s s' /\
  (_currentPage s' = _currentPage s \/ _currentPage s' = page).

(** What a run of [select], [prev] and [next] needs to go through. *)
Definition navigable (s : t) : Prop :=
  page_in_range s /\ thumb_per_page s /\ 0 <= _async s.

(** A call of one of the three methods that move the list. *)
Inductive Call : Type :=
| CallSelect (page : Z)
| CallPrev
| CallNext.

Definition call (c : Call) : M Ret :=
  match c with
  | CallSelect page => select (Some page)
  | CallPrev => prev
  | CallNext => next
  end.

(** The calls of a list, one after the other. *)
Fixpoint calls (l : list Call) : M unit :=
  match l with
  | [] => ret tt
  | c :: rest => call c ;; calls rest
  end.

End Carousel.

(** * Properties of the Countdown *)

Module CountdownFacts.
Import Countdown.

Lemma listened_dispatch (name : string) (c : t) :
  In name listened -> dispatch name c = _count c.
Proof.
  intros H. unfold dispatch.
  replace (existsb (String.eqb name) listened) with true; [reflexivity|].
  symmetry. apply existsb_exists. exists name. split; [exact H|].
  apply String.eqb_refl.
Qed.

Lemma count_enabled (c : t) : _enabled (_count c) = _enabled c.
Proof.
  unfold _count. destruct (_enabled c) eqn:E; cbn; [|exact E].
  destruct (_contentLength c <=? max (_options c)).
  - destruct (_exceeded c) as [[|]|]; cbn; exact E.
  - destruct (max (_options c) <? _contentLength c); cbn; exact E.
Qed.

Lemma count_options (c : t) : _options (_count c) = _options c.
Proof.
  unfold _count. destruct (_enabled c); cbn; [|reflexivity].
  destruct (_contentLength c <=? max (_options c)).
  - destruct (_exceeded c) as [[|]|]; reflexivity.
  - destruct (max (_options c) <? _contentLength c); reflexivity.
Qed.

Lemma count_value (c : t) : value (_count c) = value c.
Proof.
  unfold _count. destruct (_enabled c); cbn; [|reflexivity].
  destruct (_contentLength c <=? max (_options c)).
  - destruct (_exceeded c) as [[|]|]; reflexivity.
  - destruct (max (_options c) <? _contentLength c); reflexivity.
Qed.

(** What an enabled [_count] leaves in [_remaining] and [_exceeded]. *)
Lemma count_bookkeeping (c : t) :
  _enabled c = true -> consistent (_count c).
Proof.
  intros E. unfold consistent.
  rewrite count_options. unfold _contentLength. rewrite count_value.
  fold (_contentLength c).
  unfold _count. rewrite E. cbn.
  destruct (_contentLength c <=? max (_options c)) eqn:L.
  - apply Z.leb_le in L.
    destruct (_exceeded c) as [[|]|] eqn:X; cbn; rewrite ?X;
      (split; [reflexivity|]); split; intros H; try discriminate; lia.
  - apply Z.leb_gt in L.
    replace (max (_options c) <? _contentLength c) with true
      by (symmetry; apply Z.ltb_lt; exact L).
    cbn. split; [reflexivity|]. split; intros _; [exact L|reflexivity].
Qed.

(** One call of an enabled [_count] emits [exceed] when the text is longer
    than [max], and nothing otherwise. *)
Lemma count_emitted (c : t) :
  _enabled c = true ->
  emitted (_count c) =
    if max (_options c) <? _contentLength c
    then (emitted c ++ ["exceed"])%list else emitted c.
Proof.
  intros E. unfold _count. rewrite E. cbn.
  destruct (_contentLength c <=? max (_options c)) eqn:L.
  - apply Z.leb_le in L.
    replace (max (_options c) <? _contentLength c) with false
      by (symmetry; apply Z.ltb_ge; exact L).
    destruct (_exceeded c) as [[|]|]; reflexivity.
  - apply Z.leb_gt in L.
    replace (max (_options c) <? _contentLength c) with true
      by (symmetry; apply Z.ltb_lt; exact L).
    reflexivity.
Qed.

Lemma count_name_app (name : string) (l1 l2 : list string) :
  count_name name (l1 ++ l2) = (count_name name l1 + count_name name l2)%nat.
Proof.
  unfold count_name. rewrite filter_app, length_app. reflexivity.
Qed.

(** C7: for an enabled Countdown, after an input event whose text has
    length [L], [_remaining] is [max - L] and [_exceeded] is [true]
    exactly when [L > max]. *)
Theorem count_remaining_and_exceeded :
  forall (c : t) (name text : string),
    _enabled c = true ->
    In name listened ->
    let L := Z.of_nat (String.length text) in
    let c' := input_event (name, text) c in
    _remaining c' = max (_options c) - L /\
    (_exceeded c' = Some true <-> L > max (_options c)).
Proof.
  intros c name text E H L c'. subst c'. unfold input_event. cbn [fst snd].
  rewrite (listened_dispatch _ _ H).
  destruct (count_bookkeeping (set_value text c) E) as [R X].
  unfold _contentLength in R, X.
  rewrite count_options, count_value in R, X. cbn in R, X.
  split; [exact R|]. rewrite X. subst L. lia.
Qed.

Lemma count_remaining_and_exceeded_witness :
  let c := _init true (normalizeOptions 140) "" in
  let c' := input_event ("input", "hello") c in
  _remaining c' = 140 - 5 /\ (_exceeded c' = Some true <-> 5 > 140).
Proof.
  apply (count_remaining_and_exceeded
           (_init true (normalizeOptions 140) "") "input" "hello").
  - reflexivity.
  - cbn. tauto.
Defined.

(** C8, as amended: after an observed input event an enabled Countdown
    has [_remaining] and [_exceeded] consistent with the text of the
    control; a disabled Countdown recomputes nothing, the event leaves
    every field as it was. *)
Theorem count_recomputes_only_when_enabled :
  forall (c : t) (name text : string),
    In name listened ->
    let c' := input_event (name, text) c in
    if _enabled c then consistent c' else c' = set_value text c.
Proof.
  intros c name text H c'. subst c'. unfold input_event. cbn [fst snd].
  rewrite (listened_dispatch _ _ H). destruct (_enabled c) eqn:E.
  - apply count_bookkeeping. exact E.
  - unfold _count. cbn. rewrite E. reflexivity.
Qed.

Lemma count_recomputes_only_when_enabled_witness :
  consistent (input_event ("keyup", "ab") (_init true (normalizeOptions 1) ""))
  /\ input_event ("keyup", "ab") (_init false (normalizeOptions 1) "")
     = set_value "ab" (_init false (normalizeOptions 1) "").
Proof.
  split.
  - apply (count_recomputes_only_when_enabled
             (_init true (normalizeOptions 1) "") "keyup" "ab").
    cbn. tauto.
  - apply (count_recomputes_only_when_enabled
             (_init false (normalizeOptions 1) "") "keyup" "ab").
    cbn. tauto.
Defined.

(** C8, as stated, fails on a disabled Countdown: with [max = 1] and an
    empty control, the text becomes ["ab"] and [_remaining] stays [1]. *)
Lemma disabled_count_is_stale :
  ~ (forall (c : t) (name text : string),
       In name listened -> consistent (input_event (name, text) c)).
Proof.
  intros H.
  specialize (H (_init false (normalizeOptions 1) "") "input" "ab").
  destruct H as [R _]; [cbn; tauto|].
  vm_compute in R. discriminate R.
Qed.

Lemma input_event_enabled (ev : string * string) (c : t) :
  _enabled (input_event ev c) = _enabled c.
Proof.
  unfold input_event, dispatch.
  destruct (existsb (String.eqb (fst ev)) listened); [|reflexivity].
  rewrite count_enabled. reflexivity.
Qed.

Lemma input_event_options (ev : string * string) (c : t) :
  _options (input_event ev c) = _options c.
Proof.
  unfold input_event, dispatch.
  destruct (existsb (String.eqb (fst ev)) listened); [|reflexivity].
  rewrite count_options. reflexivity.
Qed.

(** C2, as amended: over any sequence of observed input events an enabled
    Countdown emits [exceed] once for every event whose text is longer
    than [max], whether or not the previous text already was. *)
Theorem exceed_emitted_on_every_long_event :
  forall (evs : list (string * string)) (c : t),
    _enabled c = true ->
    Forall (fun ev => In (fst ev) listened) evs ->
    count_name "exceed" (emitted (run evs c)) =
      (count_name "exceed" (emitted c) + over (max (_options c)) evs)%nat.
Proof.
  induction evs as [|ev evs IH]; intros c E F.
  - cbn. lia.
  - inversion F as [|? ? Hev Hevs]; subst.
    unfold run. cbn [fold_left]. fold (run evs (input_event ev c)).
    rewrite IH; [|rewrite input_event_enabled; exact E|exact Hevs].
    rewrite input_event_options.
    unfold input_event at 1. rewrite (listened_dispatch _ _ Hev).
    rewrite count_emitted by exact E.
    unfold over. cbn [filter]. unfold text_length at 2.
    cbn [_options set_value]. unfold _contentLength. cbn [value set_value].
    change (emitted (set_value (snd ev) c)) with (emitted c).
    destruct (max (_options c) <? Z.of_nat (String.length (snd ev))).
    + rewrite count_name_app.
      change (count_name "exceed" ["exceed"]) with 1%nat.
      cbn [List.length]. lia.
    + lia.
Qed.

Lemma exceed_emitted_on_every_long_event_witness :
  let c := _init true (normalizeOptions 1) "" in
  let evs := [("input", "ab"); ("input", "abc")] in
  count_name "exceed" (emitted (run evs c)) =
    (count_name "exceed" (emitted c) + over (max (_options c)) evs)%nat.
Proof.
  apply (exceed_emitted_on_every_long_event
           [("input", "ab"); ("input", "abc")]
           (_init true (normalizeOptions 1) "")).
  - reflexivity.
  - repeat constructor; cbn; tauto.
Defined.

(** C2, as stated, fails: with [max = 1] the texts ["ab"] and then
    ["abc"] cross the maximum once and emit [exceed] twice. *)
Lemma exceed_emitted_twice_for_one_crossing :
  ~ exceed_once_per_crossing (_init true (normalizeOptions 1) "")
      [("input", "ab"); ("input", "abc")].
Proof.
  unfold exceed_once_per_crossing. vm_compute. discriminate.
Qed.

(** ** Further properties of the Countdown *)

Lemma run_app (evs1 evs2 : list (string * string)) (c : t) :
  run (evs1 ++ evs2) c = run evs2 (run evs1 c).
Proof. unfold run. apply fold_left_app. Qed.

Lemma run_enabled (evs : list (string * string)) (c : t) :
  _enabled (run evs c) = _enabled c.
Proof.
  revert c. induction evs as [|ev evs IH]; intros c; [reflexivity|].
  unfold run. cbn [fold_left]. fold (run evs (input_event ev c)).
  rewrite IH. apply input_event_enabled.
Qed.

Lemma run_options (evs : list (string * string)) (c : t) :
  _options (run evs c) = _options c.
Proof.
  revert c. induction evs as [|ev evs IH]; intros c; [reflexivity|].
  unfold run. cbn [fold_left]. fold (run evs (input_event ev c)).
  rewrite IH. apply input_event_options.
Qed.

Lemma count_marks (c : t) : marks_agree c -> marks_agree (_count c).
Proof.
  intros (A & B & C). unfold _count, marks_agree.
  destruct (_enabled c); cbn; [|repeat split; tauto].
  destruct (_contentLength c <=? max (_options c)).
  - destruct (_exceeded c) as [[|]|] eqn:X; cbn; rewrite ?X;
      repeat split; intros; try tauto; try discriminate.
  - destruct (max (_options c) <? _contentLength c); cbn;
      repeat split; intros; tauto.
Qed.

Lemma run_marks (evs : list (string * string)) (c : t) :
  marks_agree c -> marks_agree (run evs c).
Proof.
  revert c. induction evs as [|ev evs IH]; intros c H; [exact H|].
  unfold run. cbn [fold_left]. fold (run evs (input_event ev c)).
  apply IH. unfold input_event, dispatch.
  destruct (existsb (String.eqb (fst ev)) listened).
  - apply count_marks. exact H.
  - exact H.
Qed.

(** X1: on an enabled Countdown built by [_init], after any sequence of
    observed input events the error marks (class [ch-validation-error],
    class [ch-countdown-exceeded], [aria-invalid="true"]) are all present
    when the text of the last event is longer than [max], and none of them
    is when it is not. *)
Theorem error_marks_follow_the_text :
  forall (o : Options) (text : string) (evs : list (string * string))
         (ev : string * string),
    Forall (fun ev => In (fst ev) listened) (evs ++ [ev]) ->
    let c := run (evs ++ [ev]) (_init true o text) in
    (validation_error c = true <-> max o < text_length ev) /\
    (countdown_exceeded c = true <-> max o < text_length ev) /\
    (aria_invalid c = Some true <-> max o < text_length ev).
Proof.
  intros o text evs ev F c.
  apply Forall_app in F. destruct F as [_ F].
  inversion F as [|? ? Hev _]; subst.
  assert (M : marks_agree c).
  { apply run_marks. repeat split; cbn; intros; discriminate. }
  assert (K : consistent c).
  { unfold c. rewrite run_app. cbn [run fold_left].
    unfold input_event. rewrite (listened_dispatch _ _ Hev).
    apply count_bookkeeping. cbn. rewrite run_enabled. reflexivity. }
  assert (V : _contentLength c = text_length ev).
  { unfold c. rewrite run_app. cbn [run fold_left].
    unfold input_event. rewrite (listened_dispatch _ _ Hev).
    unfold _contentLength. rewrite count_value. reflexivity. }
  assert (O : _options c = o).
  { unfold c. rewrite run_options. reflexivity. }
  destruct M as (A & B & C). destruct K as [_ K].
  rewrite O, V in K. rewrite A. tauto.
Qed.

Lemma error_marks_follow_the_text_witness :
  let c := run ([("keydown", "a")] ++ [("input", "abc")])
             (_init true (normalizeOptions 2) "") in
  (validation_error c = true <-> 2 < 3) /\
  (countdown_exceeded c = true <-> 2 < 3) /\
  (aria_invalid c = Some true <-> 2 < 3).
Proof.
  apply (error_marks_follow_the_text (normalizeOptions 2) ""
           [("keydown", "a")] ("input", "abc")).
  repeat constructor; cbn; tauto.
Defined.

Lemma replace_all_no_hash (n m : string) :
  hashes m = O -> replace_all_hash n m = m.
Proof.
  induction m as [|a m IH]; cbn; [reflexivity|].
  destruct (Ascii.eqb a "#"); [discriminate|].
  intros H. rewrite IH by exact H. reflexivity.
Qed.

(** With at most one hash in the template, [replace('#', n)] and
    [replace(/\#/g, n)] give the same text. *)
Lemma replace_first_is_replace_all (n m : string) :
  (hashes m <= 1)%nat -> replace_first_hash n m = replace_all_hash n m.
Proof.
  induction m as [|a m IH]; cbn; [reflexivity|].
  destruct (Ascii.eqb a "#").
  - intros H. rewrite replace_all_no_hash by lia. reflexivity.
  - intros H. rewrite IH by exact H. reflexivity.
Qed.

(** X2: when neither template has more than one hash, an observed event
    that leaves the text as it was at construction hands the container
    the same string as [_init] did (the two use different replacements:
    the first hash in [_init], every hash in [_count]); [_init] hands it
    over as markup to be parsed, [_count] as text. *)
Theorem message_of_init_and_count_agree :
  forall (o : Options) (name text : string),
    In name listened ->
    (hashes (plural o) <= 1)%nat ->
    (hashes (singular o) <= 1)%nat ->
    let c := _init true o text in
    let c' := input_event (name, text) c in
    container_text c' = container_text c /\
    container_markup c = true /\
    container_markup c' = false.
Proof.
  intros o name text H P S c c'. subst c c'.
  unfold input_event. cbn [fst snd].
  rewrite (listened_dispatch _ _ H).
  unfold _count. cbn.
  set (r := max o - Z.of_nat (String.length text)).
  assert (E : forall c' : t, _remaining c' = r -> _options c' = o ->
            let c'' :=
              set_container_text
                (replace_all_hash (js_string_of_Z (_remaining c'))
                   (if negb (_remaining c' =? 1) then plural (_options c')
                    else singular (_options c'))) c' in
            container_text c'' =
              replace_first_hash (js_string_of_Z r)
                (if r =? 1 then singular o else plural o)
            /\ true = true /\ container_markup c'' = false).
  { intros c' R O. cbn. rewrite R, O.
    split; [|split; reflexivity].
    destruct (r =? 1); cbn; symmetry;
      apply replace_first_is_replace_all; assumption. }
  unfold _contentLength. cbn. fold r.
  destruct (Z.of_nat (String.length text) <=? max o).
  - apply E; reflexivity.
  - destruct (max o <? Z.of_nat (String.length text)); apply E; reflexivity.
Qed.

(** The Countdown of the demo page. *)
Lemma message_of_init_and_count_agree_witness :
  let o := {| max := 140; plural := "# left"; singular := "# left" |} in
  let c := _init true o "hello" in
  let c' := input_event ("keyup", "hello") c in
  container_text c' = container_text c /\
  container_markup c = true /\
  container_markup c' = false.
Proof.
  apply (message_of_init_and_count_agree
           {| max := 140; plural := "# left"; singular := "# left" |}
           "keyup" "hello").
  - cbn. tauto.
  - cbn. lia.
  - cbn. lia.
Defined.

(** X3: with the default templates, after an observed input event on an
    enabled Countdown the container shows the remaining count followed by
    [" character left."] when exactly one character remains and by
    [" characters left."] otherwise, also for zero and negative counts. *)
Theorem default_message :
  forall (c : t) (name text : string),
    _enabled c = true ->
    In name listened ->
    plural (_options c) = plural _defaults ->
    singular (_options c) = singular _defaults ->
    let r := max (_options c) - Z.of_nat (String.length text) in
    container_text (input_event (name, text) c) =
      (js_string_of_Z r ++
       (if (r =? 1)%Z then " character left." else " characters left."))%string.
Proof.
  intros c name text E H P S r. unfold input_event. cbn [fst snd].
  rewrite (listened_dispatch _ _ H).
  unfold _count. cbn. rewrite E. cbn.
  unfold _contentLength. cbn. fold r.
  assert (F : forall c' : t, _remaining c' = r -> _options c' = _options c ->
            container_text
              (set_container_text
                 (replace_all_hash (js_string_of_Z (_remaining c'))
                    (if negb (_remaining c' =? 1) then plural (_options c')
                     else singular (_options c'))) c') =
            (js_string_of_Z r ++
             (if (r =? 1)%Z then " character left." else " characters left."))%string).
  { intros c' R O. cbn. rewrite R, O, P, S.
    destruct (r =? 1); reflexivity. }
  destruct (Z.of_nat (String.length text) <=? max (_options c)).
  - destruct (_exceeded c) as [[|]|]; apply F; reflexivity.
  - destruct (max (_options c) <? Z.of_nat (String.length text));
      apply F; reflexivity.
Qed.

Lemma default_message_witness :
  container_text
    (input_event ("input", "hello") (_init true (normalizeOptions 6) "")) =
  "1 character left.".
Proof.
  apply (default_message (_init true (normalizeOptions 6) "") "input" "hello").
  - reflexivity.
  - cbn. tauto.
  - reflexivity.
  - reflexivity.
Defined.

End CountdownFacts.

(** * Properties of the Carousel *)

Module CarouselFacts.
Import Carousel.

Ltac step :=
  unfold bind, ret, modify, emit, _translate, _disableArrows, log; cbn.

Lemma trace_grows (s : t) (l : list Effect) :
  l <> [] -> set_trace (trace s ++ l) s <> s.
Proof.
  intros Hl H. apply (f_equal trace) in H. cbn in H.
  apply (f_equal (@List.length Effect)) in H.
  rewrite length_app in H. destruct l; [congruence|cbn in H; lia].
Qed.

(** The guard of [select]: under it the call returns the instance and the
    state it found. *)
Lemma select_guarded (s : t) (page : Z) :
  _enabled s = false \/ page = _currentPage s \/ page < 1
  \/ page > _pages s ->
  select (Some page) s = Normal This s.
Proof.
  intros H. unfold select.
  replace (negb (_enabled s) || (page =? _currentPage s) || (page <? 1)
           || (_pages s <? page)) with true; [reflexivity|].
  symmetry. rewrite !orb_true_iff, negb_true_iff, Z.eqb_eq, !Z.ltb_lt.
  destruct H as [H|[H|[H|H]]]; auto. right. lia.
Qed.

(** C9: [select(page)] with a defined argument changes nothing and returns
    the instance when the component is disabled, or [page] is the current
    page, or [page < 1], or [page > pages]: the current page, the
    displacements written to the list, the pagination and the notifications
    emitted are as before. *)
Theorem select_is_a_no_op :
  forall (s : t) (page : Z),
    _enabled s = false \/ page = _currentPage s \/ page < 1
    \/ page > _pages s ->
    exists s',
      select (Some page) s = Normal This s' /\
      s' = s /\
      _currentPage s' = _currentPage s /\
      translations s' = translations s /\
      pagination_children s' = pagination_children s /\
      emitted s' = emitted s.
Proof.
  intros s page H. exists s. rewrite (select_guarded s page H).
  repeat split.
Qed.

Lemma select_is_a_no_op_witness :
  exists s',
    select (Some 5) ten_items = Normal This s' /\
    s' = ten_items /\
    _currentPage s' = _currentPage ten_items /\
    translations s' = translations ten_items /\
    pagination_children s' = pagination_children ten_items /\
    emitted s' = emitted ten_items.
Proof.
  apply (select_is_a_no_op ten_items 5).
  right. right. right. vm_compute. reflexivity.
Defined.

(** The state [_updateDistribution] leaves when its guard lets it
    through. *)
Lemma updateDistribution_recomputes (s : t) :
  unchanged_distribution s = false ->
  exists s',
    _updateDistribution s = Normal tt s' /\
    (List.length (trace s) < List.length (trace s'))%nat /\
    _itemExtraWidth s' = extraWidth s /\
    _itemMargin s' =
      (if autoMargin (_options s) && moreThanOne s
       then (freeSpace s / inject_Z (_limitPerPage s - 1) / 2)%Q else 0%Q) /\
    _pageWidth s' =
      ((inject_Z (_itemOuterWidth s) + _itemExtraWidth s' + _itemMargin s')
       * inject_Z (_limitPerPage s))%Q /\
    _limitPerPage s' = _limitPerPage s /\ _pages s' = _pages s /\
    _currentPage s' = _currentPage s.
Proof.
  intros G. unfold _updateDistribution. rewrite G.
  unfold _standbyFX. step.
  destruct (moreThanOne s) eqn:MO;
    destruct (fx (_options s) && transition s) eqn:FX; step;
    rewrite ?FX; step; rewrite ?FX; step;
    eexists; (split; [reflexivity|]); cbn; rewrite ?length_app; cbn;
    rewrite ?MO, ?andb_true_r, ?andb_false_r;
    repeat split; try reflexivity; try lia.
Qed.

(** C1, as amended: [_updateDistribution] returns early, leaving the
    extra width, the margin, the page width, the list width and the
    displacement as they were, exactly when the newly derived extra width
    equals the stored one and is greater than zero. *)
Theorem updateDistribution_skips_iff :
  forall s : t,
    _updateDistribution s = Normal tt s <->
    (extraWidth s == _itemExtraWidth s /\ 0 < extraWidth s)%Q.
Proof.
  intros s. destruct (unchanged_distribution s) eqn:G.
  - split; intros _.
    + unfold unchanged_distribution, Qlt_bool in G.
      apply andb_true_iff in G. destruct G as [G1 G2].
      apply Qeq_bool_iff in G1. apply negb_true_iff in G2.
      split; [exact G1|]. apply Qnot_le_lt. intros H.
      apply Qle_bool_iff in H. congruence.
    + unfold _updateDistribution. rewrite G. reflexivity.
  - split.
    + intros H.
      destruct (updateDistribution_recomputes s G) as (s' & R & L & _).
      rewrite R in H. injection H as H. subst s'. lia.
    + intros [H1 H2]. exfalso.
      unfold unchanged_distribution, Qlt_bool in G.
      apply andb_false_iff in G. destruct G as [G|G].
      * apply Qeq_bool_iff in H1. congruence.
      * apply negb_false_iff in G. apply Qle_bool_iff in G.
        apply (Qlt_not_le _ _ H2 G).
Qed.

(** C1, as stated, fails: on [exact_fit] the derived extra width equals
    the stored one and is zero, and the distribution is recomputed (the
    page width goes from 0 to 600). *)
Lemma updateDistribution_runs_when_zero : ~ skips_when_zero exact_fit.
Proof.
  unfold skips_when_zero. intros [_ H].
  assert (E : _updateDistribution exact_fit = Normal tt exact_fit).
  { apply H. split; vm_compute; reflexivity. }
  apply (f_equal (fun c => option_map _pageWidth (final c))) in E.
  vm_compute in E. discriminate E.
Qed.

Lemma inject_Z_pred (z : Z) : (inject_Z (z - 1) == inject_Z z - 1)%Q.
Proof.
  unfold Z.sub. rewrite inject_Z_plus, inject_Z_opp. reflexivity.
Qed.

Lemma inject_Z_nonzero (z : Z) : z <> 0 -> ~ (inject_Z z == 0)%Q.
Proof.
  intros H E. apply H. unfold Qeq in E. cbn in E. lia.
Qed.

(** The distribution where [_updateDistribution] recomputes it (its guard
    does not return early): with free space
    [F = maskWidth - itemOuterWidth * itemsPerPage], auto-margin and more
    than one item per page give each item the extra width
    [F / itemsPerPage / 2] and the margin [F / (itemsPerPage - 1) / 2];
    otherwise the margin is zero and the extra widths of a page add up to
    all of [F] (each item gets [F / itemsPerPage], which is [F] itself on a
    page of one item). *)
Theorem distribution_of_free_space :
  forall s : t,
    1 <= _limitPerPage s ->
    unchanged_distribution s = false ->
    let n := inject_Z (_limitPerPage s) in
    let F := (_maskWidth s - inject_Z (_itemOuterWidth s) * n)%Q in
    exists s',
      _updateDistribution s = Normal tt s' /\
      if autoMargin (_options s) && (1 <? _limitPerPage s)
      then (_itemExtraWidth s' == F / n / 2
            /\ _itemMargin s' == F / (n - 1) / 2)%Q
      else (_itemExtraWidth s' == (if 1 <? _limitPerPage s then F / n else F)
            /\ _itemExtraWidth s' * n == F
            /\ _itemMargin s' == 0)%Q.
Proof.
  intros s L G n F.
  destruct (updateDistribution_recomputes s G)
    as (s' & R & _ & EW & MG & _).
  exists s'. split; [exact R|]. rewrite EW, MG.
  unfold extraWidth, freeSpaceDistribution, moreThanOne.
  fold (freeSpace s). change (freeSpace s) with F. fold n.
  destruct (1 <? _limitPerPage s) eqn:MO.
  - destruct (autoMargin (_options s)); cbn [andb].
    + split; [reflexivity|]. rewrite inject_Z_pred. reflexivity.
    + split; [reflexivity|]. split; [|reflexivity].
      apply Z.ltb_lt in MO.
      assert (N : ~ (n == 0)%Q) by (apply inject_Z_nonzero; lia).
      field. exact N.
  - apply Z.ltb_ge in MO. rewrite andb_false_r.
    assert (E : _limitPerPage s = 1) by lia.
    split; [reflexivity|]. split; [|reflexivity]. unfold n. rewrite E. ring.
Qed.

Lemma distribution_of_free_space_witness :
  exists s',
    _updateDistribution loose_fit = Normal tt s' /\
    (_itemExtraWidth s' == (480 - 200 * 2) / 2 / 2
     /\ _itemMargin s' == (480 - 200 * 2) / (2 - 1) / 2)%Q.
Proof.
  apply (distribution_of_free_space loose_fit).
  - vm_compute. discriminate.
  - vm_compute. reflexivity.
Defined.

(** C6 at the failing input: a Carousel with the defaults (auto-margin) on
    six items of 200px behind a mask of 480px has two items per page, the
    extra width 20 and the margin 40. A resize of the mask to 720px gives
    three items per page and free space 120, so the extra width
    [F / itemsPerPage / 2] is again 20: the guard of [_updateDistribution]
    compares the extra width only and returns early. The margin stays 40
    where [F / (itemsPerPage - 1) / 2] is 30, and the page width stays 520
    where the mask is 720 wide. *)
Theorem skipped_distribution_keeps_margin :
  exists s1 s2 : t,
    _init true true _defaults 6 (measures 480) = Normal tt s1 /\
    (_itemExtraWidth s1 == 20 /\ _itemMargin s1 == 40)%Q /\
    refresh 720 s1 = Normal This s2 /\
    _limitPerPage s2 = 3 /\
    autoMargin (_options s2) && (1 <? _limitPerPage s2) = true /\
    (_itemExtraWidth s2 == 20 /\ _itemMargin s2 == 40)%Q /\
    (freeSpace s2 / inject_Z (_limitPerPage s2 - 1) / 2 == 30)%Q /\
    ~ (_itemMargin s2 ==
       (_maskWidth s2
        - inject_Z (_itemOuterWidth s2) * inject_Z (_limitPerPage s2))
       / (inject_Z (_limitPerPage s2) - 1) / 2)%Q /\
    (_pageWidth s2 == 520)%Q.
Proof.
  do 2 eexists.
  split; [vm_compute; reflexivity|].
  split; [split; vm_compute; reflexivity|].
  split; [vm_compute; reflexivity|].
  split; [reflexivity|].
  split; [reflexivity|].
  split; [split; vm_compute; reflexivity|].
  split; [vm_compute; reflexivity|].
  split; [|vm_compute; reflexivity].
  intros H. vm_compute in H. discriminate H.
Qed.

(** The loop of [_loadAsyncItems] started on a non-negative amount: it
    appends that many items, counts them, and leaves [amount] at zero. *)
Lemma while_amount_exit (n : nat) (item : Item) :
  forall (items : list Item) (amount counter : Z),
    amount = Z.of_nat n ->
    while_amount n item (items, amount, counter) =
      (items ++ repeat item n, 0, counter + amount).
Proof.
  induction n as [|n IH]; intros items amount counter E.
  - cbn. subst amount. rewrite app_nil_r. f_equal. cbn. lia.
  - cbn [while_amount].
    replace (amount =? 0) with false by (symmetry; apply Z.eqb_neq; lia).
    rewrite IH by lia. rewrite <- app_assoc. cbn [repeat app].
    f_equal. lia.
Qed.

(** [_loadAsyncItems] on a non-negative budget returns; it injects
    [min(budget, needed)] placeholders when both are positive, and nothing
    otherwise. *)
Lemma loadAsyncItems_returns (s : t) :
  0 <= _async s ->
  _loadAsyncItems s =
    Normal tt
      (if (_async s =? 0) || (needed s <? 1) then s
       else with_placeholders (Z.min (_async s) (needed s)) s).
Proof.
  intros A. unfold _loadAsyncItems. fold (needed s).
  destruct (_async s =? 0) eqn:A0; [reflexivity|].
  destruct (needed s <? 1) eqn:N1; [reflexivity|]. cbn [orb].
  apply Z.eqb_neq in A0. apply Z.ltb_ge in N1.
  assert (M : (if _async s <? needed s then _async s else needed s)
              = Z.min (_async s) (needed s)).
  { destruct (_async s <? needed s) eqn:C;
      [apply Z.ltb_lt in C|apply Z.ltb_ge in C]; lia. }
  rewrite M.
  replace (Z.min (_async s) (needed s) <? 0) with false
    by (symmetry; apply Z.ltb_ge; lia).
  rewrite while_amount_exit by lia.
  cbn [app]. unfold emit, log, with_placeholders.
  rewrite Z.add_0_l. reflexivity.
Qed.

(** The budget [_async] is the same after [_loadAsyncItems] as before:
    the subtraction takes the loop's counter-down, which is zero. *)
Lemma loadAsyncItems_keeps_budget (s s' : t) :
  0 <= _async s -> _loadAsyncItems s = Normal tt s' -> _async s' = _async s.
Proof.
  intros A H. rewrite (loadAsyncItems_returns s A) in H.
  injection H as H. subst s'.
  destruct ((_async s =? 0) || (needed s <? 1)); cbn; lia.
Qed.

Lemma slice_last_length {A : Type} (l : list A) (n : Z) :
  0 < n -> n <= Z.of_nat (List.length l) ->
  Z.of_nat (List.length (slice_last l n)) = n.
Proof.
  intros P B. unfold slice_last.
  replace (n =? 0) with false by (symmetry; apply Z.eqb_neq; lia).
  rewrite length_skipn. lia.
Qed.

Lemma injected_app (s : t) (e : Effect) :
  injected (set_trace (trace s ++ [e]) s) = injected s + added_of e.
Proof.
  unfold injected. cbn [trace set_trace].
  induction (trace s) as [|x l IH]; cbn; [lia|].
  cbn in IH. rewrite IH. lia.
Qed.

(** One call of [_loadAsyncItems] hands out at most
    [min(budget, needed)] items. *)
Lemma loadAsyncItems_injects (s s' : t) :
  0 <= _async s ->
  _loadAsyncItems s = Normal tt s' ->
  injected s' - injected s =
    if (_async s =? 0) || (needed s <? 1) then 0
    else Z.min (_async s) (needed s).
Proof.
  intros A H. rewrite (loadAsyncItems_returns s A) in H.
  injection H as H. subst s'.
  destruct (_async s =? 0) eqn:A0; cbn [orb]; [lia|].
  destruct (needed s <? 1) eqn:N1; [lia|].
  apply Z.eqb_neq in A0. apply Z.ltb_ge in N1.
  unfold with_placeholders.
  rewrite injected_app. cbn [added_of String.eqb]. 
  change (String.eqb "itemsadd" "itemsadd") with true. cbv iota.
  unfold injected at 1 2. cbn [trace set_async set_items set_list_children].
  rewrite slice_last_length; cbn; rewrite ?length_app, ?repeat_length; lia.
Qed.

Lemma Qdiv_nonneg (a b : Z) :
  0 <= a -> 1 <= b -> (0 <= inject_Z a / inject_Z b)%Q.
Proof.
  intros A B. unfold Qdiv. apply Qmult_le_0_compat.
  - unfold Qle. cbn. lia.
  - apply Qinv_le_0_compat. unfold Qle. cbn. lia.
Qed.

Lemma Qceiling_nonneg (x : Q) : (0 <= x)%Q -> 0 <= Qceiling x.
Proof.
  intros H. change 0 with (Qceiling 0). apply Qceiling_resp_le. exact H.
Qed.

Lemma Qfloor_nonneg (x : Q) : (0 <= x)%Q -> 0 <= Qfloor x.
Proof.
  intros H. change 0 with (Qfloor 0). apply Qfloor_resp_le. exact H.
Qed.

(** [_updateArrows] returns, and touches nothing but the trace. *)
Lemma updateArrows_returns (s : t) :
  _updateArrows s = Normal tt s \/
  exists e, _updateArrows s = Normal tt (set_trace (trace s ++ [e]) s).
Proof.
  unfold _updateArrows, _disableArrows, log.
  destruct (negb (_arrowsCreated s)); [left; reflexivity|].
  right.
  destruct (_pages s =? 1); [eexists; reflexivity|].
  destruct (_currentPage s =? 1); [eexists; reflexivity|].
  destruct (_currentPage s =? _pages s); eexists; reflexivity.
Qed.

(** [_addPagination] on a non-negative number of pages returns, and
    touches nothing but the pagination. *)
Lemma addPagination_returns (s : t) :
  0 <= _pages s ->
  exists thumbs,
    _addPagination s =
      Normal tt
        (set_paginationCreated true (set_pagination_children thumbs s)).
Proof.
  intros P. unfold _addPagination, _removePagination, bind.
  destruct (_paginationCreated s) eqn:C; cbn; rewrite ?C; cbn;
    (replace (_pages s <? 0) with false
       by (symmetry; apply Z.ltb_ge; exact P));
    eexists; reflexivity.
Qed.

(** [ceil(a / b)] is the least number of groups of [b] that hold [a]. *)
Lemma Qceiling_div_spec (a b : Z) :
  1 <= b ->
  let p := Qceiling (inject_Z a / inject_Z b) in
  (p - 1) * b < a <= p * b.
Proof.
  intros B p.
  pose proof (Qle_ceiling (inject_Z a / inject_Z b)) as H1.
  pose proof (Qceiling_lt (inject_Z a / inject_Z b)) as H2.
  fold p in H1, H2.
  destruct b as [|b|b]; try lia.
  unfold Qle, Qlt, Qdiv, Qmult, Qinv, inject_Z in H1, H2. cbn in H1, H2.
  lia.
Qed.

(** C5: [_updatePages] returns with [_pages] equal to
    [ceil((items + async) / itemsPerPage)], the least number of pages that
    hold the materialized items and the pending budget it found. *)
Theorem updatePages_counts_pages :
  forall s : t,
    1 <= _limitPerPage s ->
    0 <= _async s ->
    let total := Z.of_nat (List.length (_items s)) + _async s in
    exists s',
      _updatePages s = Normal tt s' /\
      _pages s' = Qceiling (inject_Z total / inject_Z (_limitPerPage s)) /\
      (_pages s' - 1) * _limitPerPage s < total <= _pages s' * _limitPerPage s.
Proof.
  intros s L A total. unfold _updatePages, bind, modify.
  fold total. set (p := Qceiling _).
  assert (P : 0 <= p).
  { apply Qceiling_nonneg, Qdiv_nonneg; lia. }
  assert (C : (p - 1) * _limitPerPage s < total <= p * _limitPerPage s).
  { apply Qceiling_div_spec. exact L. }
  rewrite loadAsyncItems_returns by exact A.
  match goal with
  | |- context [_updateArrows (if ?c then ?a else ?b)] =>
      set (s2 := if c then a else b)
  end.
  assert (P2 : _pages s2 = p).
  { unfold s2. destruct (orb _ _); reflexivity. }
  assert (O2 : _options s2 = _options s).
  { unfold s2. destruct (orb _ _); reflexivity. }
  clearbody s2.
  destruct (updateArrows_returns s2) as [R|[e R]]; rewrite R; cbn;
    rewrite O2; destruct (pagination (_options s)).
  - destruct (addPagination_returns s2) as [th T]; [lia|].
    rewrite T. eexists. split; [reflexivity|]. cbn. rewrite P2. auto.
  - eexists. split; [reflexivity|]. rewrite P2. auto.
  - destruct (addPagination_returns (set_trace (trace s2 ++ [e]) s2))
      as [th T]; [cbn; lia|].
    rewrite T. eexists. split; [reflexivity|]. cbn. rewrite P2. auto.
  - eexists. split; [reflexivity|]. cbn. rewrite P2. auto.
Qed.

Lemma updatePages_counts_pages_witness :
  exists s',
    _updatePages ten_items = Normal tt s' /\
    _pages s' = Qceiling (inject_Z (10 + 0) / inject_Z 3) /\
    (_pages s' - 1) * 3 < 10 + 0 <= _pages s' * 3.
Proof.
  apply (updatePages_counts_pages ten_items).
  - vm_compute. discriminate.
  - vm_compute. discriminate.
Defined.

(** What [_updatePages] keeps. *)
Lemma updatePages_keeps (s : t) :
  1 <= _limitPerPage s ->
  0 <= _async s ->
  exists s',
    _updatePages s = Normal tt s' /\
    _limitPerPage s' = _limitPerPage s /\ _async s' = _async s.
Proof.
  intros L A. unfold _updatePages, bind, modify.
  set (p := Qceiling _).
  assert (P : 0 <= p).
  { apply Qceiling_nonneg, Qdiv_nonneg; lia. }
  rewrite loadAsyncItems_returns by exact A.
  match goal with
  | |- context [_updateArrows (if ?c then ?a else ?b)] =>
      set (s2 := if c then a else b)
  end.
  assert (K : _pages s2 = p /\ _options s2 = _options s
              /\ _limitPerPage s2 = _limitPerPage s
              /\ _async s2 = _async s).
  { unfold s2. destruct (orb _ _); cbn; repeat split; lia. }
  clearbody s2. destruct K as (P2 & O2 & L2 & A2).
  destruct (updateArrows_returns s2) as [R|[e R]]; rewrite R; cbn;
    rewrite O2; destruct (pagination (_options s)).
  - destruct (addPagination_returns s2) as [th T]; [lia|].
    rewrite T. eexists. split; [reflexivity|]. cbn. auto.
  - eexists. split; [reflexivity|auto].
  - destruct (addPagination_returns (set_trace (trace s2 ++ [e]) s2))
      as [th T]; [cbn; lia|].
    rewrite T. eexists. split; [reflexivity|]. cbn. auto.
  - eexists. split; [reflexivity|]. cbn. auto.
Qed.

(** [_switchPagination] leaves a state, thrown or not, and touches
    nothing but the pagination. *)
Lemma switchPagination_final (from to : Z) (s : t) :
  exists thumbs,
    final (_switchPagination from to s) =
      Some (set_pagination_children thumbs s).
Proof.
  unfold _switchPagination.
  destruct (negb (_paginationCreated s)).
  - exists (pagination_children s). destruct s; reflexivity.
  - destruct (js_index (pagination_children s) (from - 1)).
    + destruct (js_index (pagination_children s) (to - 1));
        eexists; reflexivity.
    + exists (pagination_children s). destruct s; reflexivity.
Qed.

(** [select] on a non-negative budget leaves a state, thrown or not, and
    keeps [_limitPerPage]. *)
Lemma select_final (page : option Z) (s : t) :
  0 <= _async s ->
  exists s',
    final (select page s) = Some s' /\
    _limitPerPage s' = _limitPerPage s.
Proof.
  intros A. unfold select. destruct page as [page|].
  2: { eexists. split; reflexivity. }
  destruct (negb (_enabled s) || (page =? _currentPage s) || (page <? 1)
            || (_pages s <? page)).
  { eexists. split; reflexivity. }
  unfold bind at 1. unfold _translate, log. unfold bind at 1.
  set (s1 := set_trace _ s).
  change (_currentPage s1) with (_currentPage s).
  assert (K1 : _limitPerPage s1 = _limitPerPage s /\ _async s1 = _async s)
    by (split; reflexivity).
  clearbody s1.
  destruct (switchPagination_final (_currentPage s) page s1) as [th F].
  destruct (_switchPagination (_currentPage s) page s1) as [[] s2|s2|];
    cbn in F; [| |discriminate].
  2: { injection F as F. subst s2. eexists. split; [reflexivity|].
       cbn. tauto. }
  injection F as F.
  assert (K2 : _limitPerPage s2 = _limitPerPage s /\ _async s2 = _async s)
    by (subst s2; cbn; tauto).
  clear F. unfold bind, modify.
  set (s3 := set_currentPage page s2).
  assert (K3 : _limitPerPage s3 = _limitPerPage s /\ _async s3 = _async s)
    by (unfold s3; cbn; tauto).
  clearbody s3.
  assert (K4 : exists s4, _updateArrows s3 = Normal tt s4
               /\ _limitPerPage s4 = _limitPerPage s
               /\ _async s4 = _async s).
  { destruct (updateArrows_returns s3) as [R|[e R]]; rewrite R;
      eexists; (split; [reflexivity|]); cbn; tauto. }
  destruct K4 as (s4 & R4 & L4 & A4). rewrite R4.
  rewrite loadAsyncItems_returns by lia.
  destruct (orb _ _); cbn; eexists; (split; [reflexivity|]); cbn; tauto.
Qed.

(** [Math.floor(W / Iw) || 1] is [max(1, floor(W / Iw))] for a
    non-negative quotient. *)
Lemma js_or_floor (x : Q) :
  (0 <= x)%Q -> js_or (Qfloor x) 1 = Z.max 1 (Qfloor x).
Proof.
  intros H. apply Qfloor_nonneg in H. unfold js_or.
  destruct (Qfloor x =? 0) eqn:E;
    [apply Z.eqb_eq in E|apply Z.eqb_neq in E]; lia.
Qed.

Lemma Qdiv_nonneg_Z (w : Q) (i : Z) :
  (0 <= w)%Q -> 0 < i -> (0 <= w / inject_Z i)%Q.
Proof.
  intros W I. unfold Qdiv. apply Qmult_le_0_compat; [exact W|].
  apply Qinv_le_0_compat. unfold Qle. cbn. lia.
Qed.

(** C4, as amended: for a mask width [W >= 0] and an item outer width
    [Iw > 0], the items per page are [max(1, floor(W / Iw))], lowered to
    the option [limitPerPage] when it is configured and smaller. They are
    at least 1 when the option is not configured or is at least 1, and
    [_updateLimitPerPage] then leaves that number in [_limitPerPage]; a
    configured option below 1 is taken as it is. *)
Theorem limitPerPage_after_update :
  forall s : t,
    (0 <= _maskWidth s)%Q ->
    0 < _itemOuterWidth s ->
    0 <= _async s ->
    let fit :=
      Z.max 1 (Qfloor (_maskWidth s / inject_Z (_itemOuterWidth s))) in
    let l :=
      match limitPerPage (_options s) with
      | Some M => Z.min M fit
      | None => fit
      end in
    new_limitPerPage s = l /\
    if match limitPerPage (_options s) with
       | Some M => 1 <=? M
       | None => true
       end
    then
      1 <= l /\
      exists s',
        final (_updateLimitPerPage s) = Some s' /\ _limitPerPage s' = l
    else limitPerPage (_options s) = Some l /\ l < 1.
Proof.
  intros s W I A fit l.
  assert (N : new_limitPerPage s = l).
  { unfold new_limitPerPage, l, fit.
    rewrite js_or_floor by (apply Qdiv_nonneg_Z; assumption).
    destruct (limitPerPage (_options s)) as [M|]; [|reflexivity].
    destruct (M <? _) eqn:C;
      [apply Z.ltb_lt in C|apply Z.ltb_ge in C]; lia. }
  split; [exact N|].
  destruct (match limitPerPage (_options s) with
            | Some M => 1 <=? M
            | None => true
            end) eqn:HM.
  - assert (L1 : 1 <= l).
    { unfold l, fit. destruct (limitPerPage (_options s));
        [apply Z.leb_le in HM|]; lia. }
    split; [exact L1|].
    unfold _updateLimitPerPage. rewrite N.
    destruct (l =? _limitPerPage s) eqn:E.
    + apply Z.eqb_eq in E. exists s. split; [reflexivity|]. lia.
    + unfold bind at 1. unfold modify. unfold bind at 1.
      destruct (updatePages_keeps (set_limitPerPage l s))
        as (s1 & R1 & L & B); [exact L1|exact A|].
      rewrite R1. cbn in L, B. unfold bind.
      match goal with
      | |- context [select ?p s1] =>
          destruct (select_final p s1) as (s2 & F & L2); [lia|];
          destruct (select p s1) as [r s3|s3|]; cbn in F;
          [| |discriminate]; injection F as F; subst s3;
          exists s2; (split; [reflexivity|lia])
      end.
  - unfold l, fit. destruct (limitPerPage (_options s)) as [M|];
      [|discriminate].
    apply Z.leb_gt in HM. split; [f_equal|]; lia.
Qed.

Lemma limitPerPage_after_update_witness :
  new_limitPerPage ten_items = Z.max 1 (Qfloor (600 / inject_Z 200)) /\
  1 <= Z.max 1 (Qfloor (600 / inject_Z 200)) /\
  exists s',
    final (_updateLimitPerPage ten_items) = Some s' /\
    _limitPerPage s' = Z.max 1 (Qfloor (600 / inject_Z 200)).
Proof.
  apply (limitPerPage_after_update ten_items).
  - vm_compute. discriminate.
  - vm_compute. reflexivity.
  - vm_compute. discriminate.
Defined.

(** C4, as stated, fails: with [limitPerPage: 0] the three items that
    fit a mask of 600px are clamped to zero items per page. *)
Lemma limitPerPage_zero :
  ~ at_least_one_per_page
      (fresh true true (with_limit 0) 10 (measures 600)).
Proof.
  intros H.
  destruct (H ltac:(vm_compute; discriminate) ltac:(vm_compute; reflexivity)
              (fresh true true (with_limit 0) 10 (measures 600))
              ltac:(vm_compute; reflexivity)) as [_ B].
  vm_compute in B. apply B. reflexivity.
Qed.

(** C3 at the failing input: a Carousel with [async: 1] on one item of
    200px behind a mask of 400px injects one placeholder while it is
    built; a resize of the mask to 800px injects a second one. The budget
    [_async] is 1 before and after each of them. *)
Theorem async_budget_is_not_spent :
  exists s1 s2 : t,
    _init true true (with_async 1) 1 (measures 400) = Normal tt s1 /\
    refresh 800 s1 = Normal This s2 /\
    injected s1 = 1 /\ _async s1 = 1 /\
    injected s2 = 2 /\ _async s2 = 1.
Proof.
  eexists. eexists.
  split; [vm_compute; reflexivity|].
  split; [vm_compute; reflexivity|].
  vm_compute. repeat split.
Qed.

(** Since the budget is not spent, the page count taken before an
    injection is behind the counts after it: here one page for two items
    and a budget of one at two items per page. *)
Lemma pages_behind_after_injection :
  exists s1 : t,
    _init true true (with_async 1) 1 (measures 400) = Normal tt s1 /\
    _pages s1 = 1 /\
    Qceiling (inject_Z (Z.of_nat (List.length (_items s1)) + _async s1)
              / inject_Z (_limitPerPage s1)) = 2.
Proof.
  eexists. split; [vm_compute; reflexivity|]. split; reflexivity.
Qed.

(** [prev] and [next] emit their notification whenever the inner
    [select] returns. *)
Lemma prev_emits_after_select (s s' : t) (r : Ret) :
  select (Some (_currentPage s - 1)) s = Normal r s' ->
  prev s = Normal This (set_trace (trace s' ++ [Emit "prev" []]) s').
Proof.
  intros H. unfold prev, bind. rewrite H. reflexivity.
Qed.

Lemma next_emits_after_select (s s' : t) (r : Ret) :
  select (Some (_currentPage s + 1)) s = Normal r s' ->
  next s = Normal This (set_trace (trace s' ++ [Emit "next" []]) s').
Proof.
  intros H. unfold next, bind. rewrite H. reflexivity.
Qed.

(** In particular on a disabled component, on the first page for [prev]
    and on the last page for [next]. *)
Lemma prev_emits_on_no_op (s : t) :
  _enabled s = false \/ _currentPage s <= 1 ->
  prev s = Normal This (set_trace (trace s ++ [Emit "prev" []]) s).
Proof.
  intros H. apply (prev_emits_after_select s s This).
  apply select_guarded. destruct H as [H|H]; [left; exact H|].
  right. right. left. lia.
Qed.

Lemma next_emits_on_no_op (s : t) :
  _enabled s = false \/ _pages s <= _currentPage s ->
  next s = Normal This (set_trace (trace s ++ [Emit "next" []]) s).
Proof.
  intros H. apply (next_emits_after_select s s This).
  apply select_guarded. destruct H as [H|H]; [left; exact H|].
  right. right. right. lia.
Qed.

(** C10 at the failing input: a Carousel with [pagination: true] on two
    items of 200px behind a mask of 200px is moved to its second page; a
    resize of the mask to 400px leaves one page and one thumbnail, and
    [refresh] ends in the [TypeError] of [_switchPagination], the current
    page still being 2. [prev] then ends in the same [TypeError], and no
    [prev] notification is emitted. *)
Theorem prev_throws_on_stale_pagination :
  exists s1 s2 s3 s4 : t,
    _init true true with_pagination 2 (measures 200) = Normal tt s1 /\
    next s1 = Normal This s2 /\
    refresh 400 s2 = Throw s3 /\
    _currentPage s3 = 2 /\ _pages s3 = 1 /\
    prev s3 = Throw s4 /\
    count_name "prev" (emitted s4) = 0%nat.
Proof.
  do 4 eexists.
  split; [vm_compute; reflexivity|].
  split; [vm_compute; reflexivity|].
  split; [vm_compute; reflexivity|].
  split; [reflexivity|]. split; [reflexivity|].
  split; [vm_compute; reflexivity|].
  reflexivity.
Qed.

(** ** Further properties of the Carousel *)

(** *** Pagination *)

Lemma while_page_builds (n : nat) (current : Z) :
  forall (page : Z) (thumbs : list Thumb),
    page = Z.of_nat n ->
    while_page n current page thumbs =
      map (thumb current) (seq 1 n) ++ thumbs.
Proof.
  induction n as [|n IH]; intros page thumbs E; [reflexivity|].
  cbn [while_page].
  replace (page =? 0) with false by (symmetry; apply Z.eqb_neq; lia).
  rewrite IH by lia. rewrite seq_S, map_app, <- app_assoc. cbn [map app].
  unfold thumb at 3. replace (Z.of_nat (1 + n)) with page by lia.
  reflexivity.
Qed.

(** The pagination [_addPagination] builds. *)
Lemma addPagination_builds :
  forall s : t,
    0 <= _pages s ->
    exists s',
      _addPagination s = Normal tt s' /\
      _paginationCreated s' = true /\
      pagination_children s' =
        map (thumb (_currentPage s)) (seq 1 (Z.to_nat (_pages s))) /\
      Z.of_nat (List.length (pagination_children s')) = _pages s /\
      _pages s' = _pages s /\ _currentPage s' = _currentPage s.
Proof.
  intros s P. unfold _addPagination, _removePagination, bind.
  destruct (_paginationCreated s) eqn:C; cbn; rewrite ?C; cbn;
    (replace (_pages s <? 0) with false
       by (symmetry; apply Z.ltb_ge; exact P));
    eexists; (split; [reflexivity|]); cbn;
    rewrite while_page_builds by lia; rewrite app_nil_r;
    repeat split; try reflexivity;
    rewrite length_map, length_seq; lia.
Qed.

(** X4: [_addPagination] on a non-negative number of pages returns with
    one thumbnail per page: the thumbnail at place [k] has [data-page] [k]
    and is selected exactly when [k] is the current page; whatever
    pagination there was before is replaced, and the number of pages and
    the current page are as before. *)
Theorem addPagination_thumbnails :
  forall s : t,
    0 <= _pages s ->
    exists s',
      _addPagination s = Normal tt s' /\
      _paginationCreated s' = true /\
      Z.of_nat (List.length (pagination_children s')) = _pages s /\
      (forall k : Z,
         1 <= k <= _pages s ->
         js_index (pagination_children s') (k - 1) =
           Some {| data_page := k; selected := k =? _currentPage s |}) /\
      _pages s' = _pages s /\ _currentPage s' = _currentPage s.
Proof.
  intros s P.
  destruct (addPagination_builds s P) as (s' & R & C & T & N & P' & C').
  exists s'. repeat split; auto.
  intros k K. unfold js_index.
  replace (k - 1 <? 0) with false by (symmetry; apply Z.ltb_ge; lia).
  rewrite T.
  rewrite (nth_error_nth' _ (thumb (_currentPage s) 0)).
  2: { rewrite length_map, length_seq. lia. }
  f_equal.
  rewrite (map_nth (thumb (_currentPage s))), seq_nth by lia.
  unfold thumb. replace (Z.of_nat (1 + Z.to_nat (k - 1))) with k by lia.
  reflexivity.
Qed.

Lemma addPagination_thumbnails_witness :
  exists s',
    _addPagination ten_items = Normal tt s' /\
    _paginationCreated s' = true /\
    Z.of_nat (List.length (pagination_children s')) = 4 /\
    (forall k : Z,
       1 <= k <= 4 ->
       js_index (pagination_children s') (k - 1) =
         Some {| data_page := k; selected := k =? 1 |}) /\
    _pages s' = 4 /\ _currentPage s' = 1.
Proof.
  apply (addPagination_thumbnails ten_items).
  vm_compute. discriminate.
Defined.

Lemma mark_length (i : nat) (b : bool) (l : list Thumb) :
  List.length (mark i b l) = List.length l.
Proof.
  revert i. induction l as [|th l IH]; intros [|i]; cbn; auto.
Qed.

Lemma mark_same (i : nat) (b : bool) (l : list Thumb) (th : Thumb) :
  nth_error l i = Some th ->
  nth_error (mark i b l) i =
    Some {| data_page := data_page th; selected := b |}.
Proof.
  revert i. induction l as [|x l IH]; intros [|i] H; cbn in *;
    try discriminate.
  - injection H as H. subst. reflexivity.
  - apply IH. exact H.
Qed.

Lemma mark_other (i j : nat) (b : bool) (l : list Thumb) :
  i <> j -> nth_error (mark i b l) j = nth_error l j.
Proof.
  revert i j. induction l as [|x l IH]; intros [|i] [|j] H; cbn;
    try reflexivity; try congruence.
  apply IH. congruence.
Qed.

Lemma js_index_in_range {A : Type} (l : list A) (k : Z) :
  1 <= k <= Z.of_nat (List.length l) ->
  exists x, js_index l (k - 1) = Some x
            /\ nth_error l (Z.to_nat (k - 1)) = Some x.
Proof.
  intros H. unfold js_index.
  replace (k - 1 <? 0) with false by (symmetry; apply Z.ltb_ge; lia).
  destruct (nth_error l (Z.to_nat (k - 1))) as [x|] eqn:E.
  - exists x. split; reflexivity.
  - apply nth_error_None in E. lia.
Qed.

Lemma js_index_out_of_range {A : Type} (l : list A) (k : Z) :
  ~ (1 <= k <= Z.of_nat (List.length l)) -> js_index l (k - 1) = None.
Proof.
  intros H. unfold js_index.
  destruct (k - 1 <? 0) eqn:N; [reflexivity|].
  apply Z.ltb_ge in N. apply nth_error_None. lia.
Qed.

(** X5: with a pagination whose thumbnails include [from] and [to],
    [_switchPagination] returns; the thumbnail [to] is then selected, the
    thumbnail [from] (when another one) is not, every other thumbnail and
    every [data-page] is as before. *)
Theorem switchPagination_moves_the_selection :
  forall (s : t) (from to : Z),
    _paginationCreated s = true ->
    1 <= from <= Z.of_nat (List.length (pagination_children s)) ->
    1 <= to <= Z.of_nat (List.length (pagination_children s)) ->
    exists s',
      _switchPagination from to s = Normal tt s' /\
      List.length (pagination_children s') =
        List.length (pagination_children s) /\
      forall (k : Z) (th : Thumb),
        js_index (pagination_children s) (k - 1) = Some th ->
        js_index (pagination_children s') (k - 1) =
          Some {| data_page := data_page th;
                  selected := if k =? to then true
                              else if k =? from then false
                              else selected th |}.
Proof.
  intros s from to C F T. unfold _switchPagination. rewrite C. cbn [negb].
  destruct (js_index_in_range _ _ F) as (x & Fx & _).
  destruct (js_index_in_range _ _ T) as (y & Ty & _).
  rewrite Fx, Ty. eexists. split; [reflexivity|]. cbn.
  split; [rewrite !mark_length; reflexivity|].
  intros k th K. unfold js_index in K |- *.
  destruct (k - 1 <? 0) eqn:N; [discriminate|]. apply Z.ltb_ge in N.
  destruct (k =? to) eqn:KT.
  - apply Z.eqb_eq in KT. subst k.
    destruct (Z.eq_dec to from) as [E|E].
    + subst from.
      rewrite (mark_same _ _ _
                 {| data_page := data_page th; selected := false |});
        [reflexivity|].
      apply mark_same. exact K.
    + erewrite mark_same; [reflexivity|].
      rewrite mark_other by lia. exact K.
  - apply Z.eqb_neq in KT. rewrite mark_other by lia.
    destruct (k =? from) eqn:KF.
    + apply Z.eqb_eq in KF. subst k. erewrite mark_same; [reflexivity|exact K].
    + apply Z.eqb_neq in KF. rewrite mark_other by lia.
      rewrite K. destruct th; reflexivity.
Qed.

(** The Carousel of the demo page moved to its second page: two items of
    200px behind a mask of 200px, with pagination. *)
Lemma switchPagination_moves_the_selection_witness :
  let s := state_or ten_items
             (_init true true with_pagination 2 (measures 200)) in
  exists s',
    _switchPagination 1 2 s = Normal tt s' /\
    List.length (pagination_children s') =
      List.length (pagination_children s) /\
    forall (k : Z) (th : Thumb),
      js_index (pagination_children s) (k - 1) = Some th ->
      js_index (pagination_children s') (k - 1) =
        Some {| data_page := data_page th;
                selected := if k =? 2 then true
                            else if k =? 1 then false
                            else selected th |}.
Proof.
  apply (switchPagination_moves_the_selection
           (state_or ten_items
              (_init true true with_pagination 2 (measures 200))) 1 2).
  - vm_compute. reflexivity.
  - vm_compute. split; discriminate.
  - vm_compute. split; discriminate.
Defined.

(** X6: [_switchPagination] ends in a [TypeError] exactly when there is a
    pagination and [from] or [to] is not the number of one of its
    thumbnails. *)
Theorem switchPagination_throws_iff :
  forall (s : t) (from to : Z),
    let n := Z.of_nat (List.length (pagination_children s)) in
    (exists s', _switchPagination from to s = Throw s') <->
    _paginationCreated s = true /\ ~ (1 <= from <= n /\ 1 <= to <= n).
Proof.
  intros s from to n. unfold _switchPagination.
  destruct (_paginationCreated s) eqn:C; cbn [negb].
  2: { split.
       - intros [s' H]. discriminate.
       - intros [H _]. discriminate. }
  destruct (Z_le_dec 1 from) as [F1|F1];
    [destruct (Z_le_dec from n) as [F2|F2]|].
  - destruct (js_index_in_range (pagination_children s) from) as (x & Fx & _);
      [fold n; lia|]. rewrite Fx.
    destruct (Z_le_dec 1 to) as [T1|T1];
      [destruct (Z_le_dec to n) as [T2|T2]|].
    + destruct (js_index_in_range (pagination_children s) to)
        as (y & Ty & _); [fold n; lia|]. rewrite Ty.
      split; [intros [s' H]; discriminate|]. intros [_ H]. lia.
    + rewrite (js_index_out_of_range (pagination_children s) to)
        by (fold n; lia).
      split; [intros _; split; [reflexivity|lia]|].
      intros _. eexists. reflexivity.
    + rewrite (js_index_out_of_range (pagination_children s) to)
        by (fold n; lia).
      split; [intros _; split; [reflexivity|lia]|].
      intros _. eexists. reflexivity.
  - rewrite (js_index_out_of_range (pagination_children s) from)
      by (fold n; lia).
    split; [intros _; split; [reflexivity|lia]|].
    intros _. eexists. reflexivity.
  - rewrite (js_index_out_of_range (pagination_children s) from)
      by (fold n; lia).
    split; [intros _; split; [reflexivity|lia]|].
    intros _. eexists. reflexivity.
Qed.

(** *** Arrows *)

(** X7: when the arrows exist and the current page lies between 1 and the
    number of pages, [_updateArrows] disables the previous arrow exactly on
    the first page and the next arrow exactly on the last page. *)
Theorem updateArrows_first_and_last :
  forall s : t,
    _arrowsCreated s = true ->
    page_in_range s ->
    _updateArrows s =
      Normal tt
        (set_trace
           (trace s ++ [DisableArrows (_currentPage s =? 1)
                          (_currentPage s =? _pages s)]) s).
Proof.
  intros s A [L U]. unfold _updateArrows, _disableArrows, log. rewrite A.
  cbn [negb].
  destruct (_pages s =? 1) eqn:P1.
  - apply Z.eqb_eq in P1.
    replace (_currentPage s =? 1) with true
      by (symmetry; apply Z.eqb_eq; lia).
    replace (_currentPage s =? _pages s) with true
      by (symmetry; apply Z.eqb_eq; lia).
    reflexivity.
  - apply Z.eqb_neq in P1.
    destruct (_currentPage s =? 1) eqn:C1.
    + apply Z.eqb_eq in C1.
      replace (_currentPage s =? _pages s) with false
        by (symmetry; apply Z.eqb_neq; lia).
      reflexivity.
    + destruct (_currentPage s =? _pages s); reflexivity.
Qed.

Lemma updateArrows_first_and_last_witness :
  _updateArrows ten_items =
    Normal tt
      (set_trace (trace ten_items ++ [DisableArrows true false]) ten_items).
Proof.
  apply (updateArrows_first_and_last ten_items).
  - vm_compute. reflexivity.
  - vm_compute. split; discriminate.
Defined.

(** *** Distribution *)

(** X8: after [_updateDistribution] has recomputed the distribution for
    at least one item per page, the page width is the mask width plus one
    margin: the items of a page with their margins fill the mask, the
    margin of the last one hanging over. Without auto-margin, or with one
    item per page, the page width is the mask width. *)
Theorem page_width_is_mask_plus_margin :
  forall s : t,
    1 <= _limitPerPage s ->
    unchanged_distribution s = false ->
    exists s',
      _updateDistribution s = Normal tt s' /\
      (_pageWidth s' == _maskWidth s + _itemMargin s')%Q /\
      if autoMargin (_options s) && (1 <? _limitPerPage s)
      then (_itemMargin s' == freeSpace s / inject_Z (_limitPerPage s - 1) / 2)%Q
      else (_pageWidth s' == _maskWidth s)%Q.
Proof.
  intros s L G.
  destruct (updateDistribution_recomputes s G)
    as (s' & R & _ & EW & MG & PW & _).
  exists s'. split; [exact R|].
  assert (N : ~ (inject_Z (_limitPerPage s) == 0)%Q)
    by (apply inject_Z_nonzero; lia).
  assert (K : (_pageWidth s' == _maskWidth s + _itemMargin s')%Q).
  { rewrite PW, EW, MG.
    unfold extraWidth, freeSpaceDistribution, moreThanOne, freeSpace.
    destruct (1 <? _limitPerPage s) eqn:MO.
    - apply Z.ltb_lt in MO.
      assert (N1 : ~ (inject_Z (_limitPerPage s) - 1 == 0)%Q).
      { rewrite <- inject_Z_pred. apply inject_Z_nonzero. lia. }
      destruct (autoMargin (_options s)); cbn [andb].
      + rewrite inject_Z_pred. field. split; assumption.
      + field. exact N.
    - apply Z.ltb_ge in MO. rewrite andb_false_r.
      replace (_limitPerPage s) with 1 by lia. ring. }
  split; [exact K|].
  destruct (autoMargin (_options s) && (1 <? _limitPerPage s)) eqn:AM.
  - rewrite MG. unfold moreThanOne. rewrite AM. reflexivity.
  - rewrite K, MG. unfold moreThanOne. rewrite AM. ring.
Qed.

Lemma page_width_is_mask_plus_margin_witness :
  exists s',
    _updateDistribution loose_fit = Normal tt s' /\
    (_pageWidth s' == 480 + _itemMargin s')%Q /\
    (_itemMargin s' == (480 - 200 * 2) / inject_Z (2 - 1) / 2)%Q.
Proof.
  apply (page_width_is_mask_plus_margin loose_fit).
  - vm_compute. discriminate.
  - vm_compute. reflexivity.
Defined.

(** *** What the methods keep *)

Lemma keeps_bind {A B : Type} (R : t -> t -> Prop) (m : M A) (k : A -> M B)
  (s : t) :
  (forall a b c, R a b -> R b c -> R a c) ->
  keeps_at R m s ->
  (forall a s1, m s = Normal a s1 -> keeps_at R (k a) s1) ->
  keeps_at R (bind m k) s.
Proof.
  intros T Hm Hk s' F. unfold keeps_at in Hm. unfold bind in F.
  destruct (m s) as [a s1|s1|] eqn:E; cbn in F.
  - apply (T s s1 s'); [apply Hm; reflexivity|].
    apply (Hk a s1 eq_refl). exact F.
  - apply Hm. exact F.
  - discriminate.
Qed.

Lemma keeps_ret {A : Type} (R : t -> t -> Prop) (a : A) (s : t) :
  R s s -> keeps_at R (ret a) s.
Proof. intros H s' F. cbn in F. injection F as F. subst. exact H. Qed.

Lemma keeps_weaken {A : Type} (R R' : t -> t -> Prop) (m : M A) (s : t) :
  (forall a b, R a b -> R' a b) -> keeps_at R m s -> keeps_at R' m s.
Proof. intros W H s' F. apply W, H, F. Qed.

Lemma steady_refl (s : t) : steady s s.
Proof. unfold steady. repeat split; auto. Qed.

Lemma steady_trans (a b c : t) : steady a b -> steady b c -> steady a c.
Proof.
  unfold steady. intros H1 H2.
  destruct H1 as (A1 & A2 & A3 & A4 & A5 & A6 & A7 & A8 & A9 & A10 & A11).
  destruct H2 as (B1 & B2 & B3 & B4 & B5 & B6 & B7 & B8 & B9 & B10 & B11).
  repeat split; try congruence. auto.
Qed.

Lemma calm_refl (s : t) : calm s s.
Proof. split; [apply steady_refl|reflexivity]. Qed.

Lemma calm_trans (a b c : t) : calm a b -> calm b c -> calm a c.
Proof.
  intros [S1 C1] [S2 C2]. split; [eapply steady_trans; eauto|congruence].
Qed.

Lemma turned_trans (page : Z) (a b c : t) :
  turned page a b -> turned page b c -> turned page a c.
Proof.
  intros [S1 C1] [S2 C2]. split; [eapply steady_trans; eauto|].
  destruct C1, C2; [left|right|right|right]; congruence.
Qed.

Lemma calm_turned (page : Z) (a b : t) : calm a b -> turned page a b.
Proof. intros [S C]. split; [exact S|left; exact C]. Qed.

Ltac calm_now :=
  unfold calm, steady, in_step; cbn; rewrite ?mark_length, ?length_app;
  repeat split; auto; try lia.

Lemma log_calm (e : Effect) (s : t) : keeps_at calm (log e) s.
Proof. intros s' F. cbn in F. injection F as F. subst. calm_now. Qed.

Lemma switchPagination_calm (from to : Z) (s : t) :
  keeps_at calm (_switchPagination from to) s.
Proof.
  intros s' F. unfold _switchPagination in F.
  destruct (negb (_paginationCreated s)).
  - cbn in F. injection F as F. subst. apply calm_refl.
  - destruct (js_index (pagination_children s) (from - 1)).
    + destruct (js_index (pagination_children s) (to - 1));
        cbn in F; injection F as F; subst; calm_now.
    + cbn in F. injection F as F. subst. apply calm_refl.
Qed.

Lemma updateArrows_cases (s : t) :
  _updateArrows s = Normal tt s \/
  exists a b,
    _updateArrows s = Normal tt (set_trace (trace s ++ [DisableArrows a b]) s).
Proof.
  unfold _updateArrows, _disableArrows, log.
  destruct (negb (_arrowsCreated s)); [left; reflexivity|].
  right.
  destruct (_pages s =? 1); [do 2 eexists; reflexivity|].
  destruct (_currentPage s =? 1); [do 2 eexists; reflexivity|].
  destruct (_currentPage s =? _pages s); do 2 eexists; reflexivity.
Qed.

Lemma updateArrows_calm (s : t) : keeps_at calm _updateArrows s.
Proof.
  intros s' F.
  destruct (updateArrows_cases s) as [R|(a & b & R)]; rewrite R in F;
    cbn in F; injection F as F; subst; [apply calm_refl|calm_now].
Qed.

Lemma loadAsyncItems_calm (s : t) : keeps_at calm _loadAsyncItems s.
Proof.
  intros s' F. destruct (Z_le_dec 0 (_async s)) as [A|A].
  - rewrite loadAsyncItems_returns in F by exact A. cbn in F.
    injection F as F. subst.
    destruct (orb _ _); [apply calm_refl|].
    unfold with_placeholders. calm_now.
  - unfold _loadAsyncItems in F. fold (needed s) in F.
    replace (_async s =? 0) with false in F
      by (symmetry; apply Z.eqb_neq; lia).
    destruct (needed s <? 1) eqn:N.
    + cbn in F. injection F as F. subst. apply calm_refl.
    + apply Z.ltb_ge in N.
      replace (_async s <? needed s) with true in F
        by (symmetry; apply Z.ltb_lt; lia).
      replace (_async s <? 0) with true in F
        by (symmetry; apply Z.ltb_lt; lia).
      discriminate.
Qed.

(** Every state [select] can leave: the fields of [steady] are as before,
    and the current page is as before or is the page asked for, which then
    lies between 1 and the number of pages. *)
Lemma select_turns (page : option Z) (s s' : t) :
  final (select page s) = Some s' ->
  steady s s' /\
  (_currentPage s' = _currentPage s \/
   (page = Some (_currentPage s') /\ 1 <= _currentPage s' <= _pages s)).
Proof.
  unfold select. destruct page as [page|].
  2: { cbn. intros F. injection F as F. subst.
       split; [apply steady_refl|left; reflexivity]. }
  destruct (negb (_enabled s) || (page =? _currentPage s) || (page <? 1)
            || (_pages s <? page)) eqn:G.
  { cbn. intros F. injection F as F. subst.
    split; [apply steady_refl|left; reflexivity]. }
  intros F.
  assert (T : turned page s s').
  { revert s' F.
    apply keeps_bind; [apply turned_trans| |intros ? ? _].
    { eapply keeps_weaken; [apply calm_turned|apply log_calm]. }
    apply keeps_bind; [apply turned_trans| |intros ? ? _].
    { eapply keeps_weaken; [apply calm_turned|apply switchPagination_calm]. }
    apply keeps_bind; [apply turned_trans| |intros ? ? _].
    { intros s' F. cbn in F. injection F as F. subst.
      split; [|right; reflexivity]. unfold steady, in_step. cbn.
      repeat split; auto. }
    apply keeps_bind; [apply turned_trans| |intros ? ? _].
    { eapply keeps_weaken; [apply calm_turned|apply updateArrows_calm]. }
    apply keeps_bind; [apply turned_trans| |intros ? ? _].
    { eapply keeps_weaken; [apply calm_turned|apply loadAsyncItems_calm]. }
    apply keeps_bind; [apply turned_trans| |intros ? ? _].
    { eapply keeps_weaken; [apply calm_turned|apply log_calm]. }
    apply keeps_ret. apply calm_turned, calm_refl. }
  destruct T as [S [C|C]]; split; auto.
  right. rewrite C. split; [reflexivity|].
  rewrite !orb_false_iff in G. destruct G as [[[_ _] G1] G2].
  apply Z.ltb_ge in G1, G2. lia.
Qed.

(** The same for [prev], [next] and [select] with a page. *)
Lemma call_turns (c : Call) (s s' : t) :
  final (call c s) = Some s' ->
  steady s s' /\
  (_currentPage s' = _currentPage s \/ 1 <= _currentPage s' <= _pages s).
Proof.
  assert (W : forall page s1 s2,
            final (select page s1) = Some s2 ->
            steady s1 s2 /\
            (_currentPage s2 = _currentPage s1
             \/ 1 <= _currentPage s2 <= _pages s1)).
  { intros page s1 s2 F. destruct (select_turns page s1 s2 F) as [S [C|[_ C]]];
      auto. }
  assert (E : forall (m : M Ret) (name : string),
            (forall s1 s2, final (m s1) = Some s2 ->
               steady s1 s2 /\
               (_currentPage s2 = _currentPage s1
                \/ 1 <= _currentPage s2 <= _pages s1)) ->
            final ((m ;; emit name [] ;; ret This) s) = Some s' ->
            steady s s' /\
            (_currentPage s' = _currentPage s
             \/ 1 <= _currentPage s' <= _pages s)).
  { intros m name Hm F. unfold bind in F.
    destruct (m s) as [r s1|s1|] eqn:R; cbn in F; try discriminate.
    - injection F as F. subst s'.
      destruct (Hm s s1) as [S C]; [rewrite R; reflexivity|].
      split; [|exact C].
      eapply steady_trans; [exact S|]. calm_now.
    - injection F as F. subst s'. apply Hm. rewrite R. reflexivity. }
  destruct c as [page| |]; cbn [call].
  - apply W.
  - unfold prev. apply E. intros s1 s2. apply W.
  - unfold next. apply E. intros s1 s2. apply W.
Qed.

Lemma navigable_kept (s s' : t) :
  navigable s ->
  steady s s' ->
  _currentPage s' = _currentPage s \/ 1 <= _currentPage s' <= _pages s ->
  navigable s'.
Proof.
  intros (P & T & A) S C. unfold steady in S.
  destruct S as (_ & _ & SP & _ & _ & _ & SA & _ & SC & SL & _).
  unfold navigable, page_in_range, thumb_per_page in *.
  rewrite SP, SA, SC, SL. repeat split; auto; destruct C; lia.
Qed.

(** X9: [select], [prev] and [next] keep the current page between 1 and
    the number of pages, and leave the number of pages alone, in every
    state they can leave, thrown or not. *)
Theorem moving_keeps_the_page_in_range :
  forall (c : Call) (s s' : t),
    page_in_range s ->
    final (call c s) = Some s' ->
    page_in_range s' /\ _pages s' = _pages s.
Proof.
  intros c s s' P F. destruct (call_turns c s s' F) as [S C].
  unfold steady in S. destruct S as (_ & _ & SP & _).
  unfold page_in_range in *. rewrite SP. split; [|reflexivity].
  destruct C; lia.
Qed.

Lemma moving_keeps_the_page_in_range_witness :
  exists s' : t,
    final (call CallNext ten_items) = Some s' /\
    page_in_range s' /\ _pages s' = _pages ten_items.
Proof.
  eexists. split; [vm_compute; reflexivity|].
  apply (moving_keeps_the_page_in_range CallNext ten_items).
  - vm_compute. split; discriminate.
  - vm_compute. reflexivity.
Defined.

(** *** Moving *)

Lemma emitted_log (s : t) (e : Effect) :
  emitted (set_trace (trace s ++ [e]) s) = emitted s ++ emitted_name e.
Proof.
  unfold emitted. cbn [trace set_trace]. rewrite flat_map_app. cbn.
  rewrite app_nil_r. reflexivity.
Qed.

Lemma translations_log (s : t) (e : Effect) :
  translations (set_trace (trace s ++ [e]) s) =
    translations s ++ translate_of e.
Proof.
  unfold translations. cbn [trace set_trace]. rewrite flat_map_app. cbn.
  rewrite app_nil_r. reflexivity.
Qed.

Lemma translations_with_placeholders (k : Z) (s : t) :
  translations (with_placeholders k s) = translations s.
Proof.
  unfold with_placeholders, translations.
  cbn [trace set_trace set_async set_items set_list_children].
  rewrite flat_map_app. cbn. apply app_nil_r.
Qed.

Lemma emitted_with_placeholders (k : Z) (s : t) :
  emitted (with_placeholders k s) = emitted s ++ ["itemsadd"].
Proof.
  unfold with_placeholders, emitted.
  cbn [trace set_trace set_async set_items set_list_children].
  rewrite flat_map_app. reflexivity.
Qed.

(** [select] of another page within range, on an enabled component whose
    pagination (if any) has the thumbnails of both pages. *)
Lemma select_goes (s : t) (page : Z) :
  _enabled s = true ->
  page <> _currentPage s ->
  1 <= page <= _pages s ->
  0 <= _async s ->
  (_paginationCreated s = true ->
   1 <= _currentPage s <= Z.of_nat (List.length (pagination_children s))
   /\ page <= Z.of_nat (List.length (pagination_children s))) ->
  exists s',
    select (Some page) s = Normal This s' /\
    _currentPage s' = page /\
    translations s' =
      translations s ++ [(- _pageWidth s * inject_Z (page - 1))%Q] /\
    (emitted s' = emitted s ++ ["select"]
     \/ emitted s' = emitted s ++ ["itemsadd"; "select"]).
Proof.
  intros E N R A T. unfold select.
  replace (negb (_enabled s) || (page =? _currentPage s) || (page <? 1)
           || (_pages s <? page)) with false.
  2: { symmetry. rewrite !orb_false_iff, negb_false_iff, Z.eqb_neq.
       repeat split; auto; apply Z.ltb_ge; lia. }
  unfold bind at 1. unfold _translate, log. unfold bind at 1.
  set (d := (- _pageWidth s * inject_Z (page - 1))%Q).
  pose (Q := fun x : t =>
               translations x = translations s ++ [d]
               /\ emitted x = emitted s /\ _async x = _async s).
  set (s1 := set_trace (trace s ++ [Translate d]) s).
  assert (Q1 : Q s1).
  { unfold Q, s1. rewrite translations_log, emitted_log. cbn.
    rewrite app_nil_r. auto. }
  assert (S : exists s2, _switchPagination (_currentPage s) page s1
                         = Normal tt s2 /\ Q s2).
  { unfold _switchPagination.
    change (_paginationCreated s1) with (_paginationCreated s).
    change (pagination_children s1) with (pagination_children s).
    destruct (_paginationCreated s) eqn:C; cbn [negb].
    - destruct (T eq_refl) as [T1 T2].
      destruct (js_index_in_range (pagination_children s) (_currentPage s))
        as (x & Fx & _); [lia|].
      destruct (js_index_in_range (pagination_children s) page)
        as (y & Fy & _); [lia|].
      rewrite Fx, Fy. eexists. split; [reflexivity|exact Q1].
    - exists s1. split; [reflexivity|exact Q1]. }
  destruct S as (s2 & R2 & Q2). rewrite R2. clearbody s1. clear Q1 R2 s1.
  unfold bind at 1. unfold modify. unfold bind at 1.
  set (s3 := set_currentPage page s2).
  assert (Q3 : Q s3 /\ _currentPage s3 = page) by (split; [exact Q2|reflexivity]).
  clearbody s3. clear Q2.
  assert (S4 : exists s4, _updateArrows s3 = Normal tt s4
                          /\ Q s4 /\ _currentPage s4 = page).
  { destruct Q3 as [(Q3a & Q3b & Q3c) C3].
    destruct (updateArrows_cases s3) as [R4|(a & b & R4)]; rewrite R4;
      eexists; (split; [reflexivity|]); unfold Q;
      rewrite ?translations_log, ?emitted_log; cbn; rewrite ?app_nil_r;
      auto. }
  destruct S4 as (s4 & R4 & (Q4a & Q4b & Q4c) & C4). rewrite R4. clear Q3 R4.
  unfold bind at 1. rewrite loadAsyncItems_returns by lia.
  unfold bind, emit, log, ret.
  destruct (orb _ _); eexists; (split; [reflexivity|]).
  - rewrite translations_log, emitted_log. cbn. rewrite app_nil_r.
    rewrite Q4a, Q4b. auto.
  - rewrite translations_log, emitted_log. cbn [translate_of emitted_name].
    rewrite app_nil_r, translations_with_placeholders,
      emitted_with_placeholders, Q4a, Q4b, <- app_assoc.
    cbn. auto.
Qed.

(** X10: on an enabled Carousel, [select] of another page between 1 and
    the number of pages returns the instance with that page as current
    page and the number of pages as before, moves the list to
    [-pageWidth * (page - 1)] and emits [select] once, after the
    [itemsadd] of the items it may have injected (a non-negative budget
    and, with a pagination, thumbnails for both pages are assumed). *)
Theorem select_moves_to_the_page :
  forall (s : t) (page : Z),
    _enabled s = true ->
    page <> _currentPage s ->
    1 <= page <= _pages s ->
    0 <= _async s ->
    (_paginationCreated s = true ->
     1 <= _currentPage s <= Z.of_nat (List.length (pagination_children s))
     /\ page <= Z.of_nat (List.length (pagination_children s))) ->
    exists s',
      select (Some page) s = Normal This s' /\
      _currentPage s' = page /\
      _pages s' = _pages s /\
      translations s' =
        translations s ++ [(- _pageWidth s * inject_Z (page - 1))%Q] /\
      count_name "select" (emitted s') =
        S (count_name "select" (emitted s)) /\
      (emitted s' = emitted s ++ ["select"]
       \/ emitted s' = emitted s ++ ["itemsadd"; "select"]).
Proof.
  intros s page E N R A T.
  destruct (select_goes s page E N R A T) as (s' & Rs & C & Tr & Em).
  exists s'. split; [exact Rs|]. split; [exact C|].
  destruct (select_turns (Some page) s s') as [S _];
    [rewrite Rs; reflexivity|].
  unfold steady in S. destruct S as (_ & _ & SP & _).
  split; [exact SP|]. split; [exact Tr|]. split; [|exact Em].
  unfold count_name.
  destruct Em as [Em|Em]; rewrite Em, filter_app, length_app; cbn; lia.
Qed.

Lemma select_moves_to_the_page_witness :
  exists s',
    select (Some 3) ten_items = Normal This s' /\
    _currentPage s' = 3 /\
    _pages s' = _pages ten_items /\
    translations s' =
      translations ten_items ++
      [(- _pageWidth ten_items * inject_Z (3 - 1))%Q] /\
    count_name "select" (emitted s') =
      S (count_name "select" (emitted ten_items)) /\
    (emitted s' = emitted ten_items ++ ["select"]
     \/ emitted s' = emitted ten_items ++ ["itemsadd"; "select"]).
Proof.
  apply (select_moves_to_the_page ten_items 3).
  - reflexivity.
  - vm_compute. discriminate.
  - vm_compute. split; discriminate.
  - vm_compute. discriminate.
  - vm_compute. discriminate.
Defined.

Lemma navigable_thumbs (s : t) (page : Z) :
  navigable s ->
  1 <= page <= _pages s ->
  _paginationCreated s = true ->
  1 <= _currentPage s <= Z.of_nat (List.length (pagination_children s))
  /\ page <= Z.of_nat (List.length (pagination_children s)).
Proof.
  intros (P & T & _) R C. unfold page_in_range in P.
  rewrite (T C). lia.
Qed.

(** From a navigable state [select] returns, whatever page is asked for. *)
Lemma select_returns (s : t) (page : Z) :
  navigable s -> exists s', select (Some page) s = Normal This s'.
Proof.
  intros Nv.
  destruct (_enabled s) eqn:E.
  2: { exists s. apply select_guarded. left. exact E. }
  destruct (Z.eq_dec page (_currentPage s)) as [C|C].
  { exists s. apply select_guarded. right. left. exact C. }
  destruct (Z_lt_dec page 1) as [L|L].
  { exists s. apply select_guarded. right. right. left. exact L. }
  destruct (Z_gt_dec page (_pages s)) as [G|G].
  { exists s. apply select_guarded. right. right. right. exact G. }
  destruct (select_goes s page) as (s' & R & _); auto; try lia.
  - destruct Nv as (_ & _ & A). exact A.
  - apply navigable_thumbs; [exact Nv|lia].
  - exists s'. exact R.
Qed.

Lemma call_returns (c : Call) (s : t) :
  navigable s -> exists s', call c s = Normal This s'.
Proof.
  intros Nv. destruct c as [page| |]; cbn [call].
  - apply select_returns. exact Nv.
  - destruct (select_returns s (_currentPage s - 1) Nv) as [s' R].
    eexists. apply (prev_emits_after_select s s' This R).
  - destruct (select_returns s (_currentPage s + 1) Nv) as [s' R].
    eexists. apply (next_emits_after_select s s' This R).
Qed.

(** X11: from a state whose current page lies between 1 and the number
    of pages, whose pagination (if any) has one thumbnail per page and
    whose budget is not negative, every sequence of [select], [prev] and
    [next] returns: none of the calls ends in a [TypeError] or hangs, and
    the state they leave is again such a state, with the same number of
    pages. *)
Theorem moving_never_throws :
  forall (l : list Call) (s : t),
    navigable s ->
    exists s',
      calls l s = Normal tt s' /\ navigable s' /\ _pages s' = _pages s.
Proof.
  induction l as [|c l IH]; intros s Nv.
  - exists s. split; [reflexivity|]. split; [exact Nv|reflexivity].
  - destruct (call_returns c s Nv) as [s1 R].
    destruct (call_turns c s s1) as [S C]; [rewrite R; reflexivity|].
    assert (Nv1 : navigable s1) by (apply (navigable_kept s s1 Nv S C)).
    destruct (IH s1 Nv1) as (s' & R' & Nv' & P').
    exists s'. cbn [calls]. unfold bind. rewrite R.
    split; [exact R'|]. split; [exact Nv'|].
    unfold steady in S. destruct S as (_ & _ & SP & _). congruence.
Qed.

Lemma moving_never_throws_witness :
  exists s',
    calls [CallNext; CallSelect 4; CallNext; CallPrev; CallSelect 0] ten_items
    = Normal tt s' /\ navigable s' /\ _pages s' = _pages ten_items.
Proof.
  apply (moving_never_throws
           [CallNext; CallSelect 4; CallNext; CallPrev; CallSelect 0]
           ten_items).
  split; [|split].
  - vm_compute. split; discriminate.
  - vm_compute. discriminate.
  - vm_compute. discriminate.
Defined.

(** X12: on an enabled, navigable Carousel that is not on its last page,
    [next] followed by [prev] returns to the page it started from: both
    return the instance, the current page is the one before the two calls,
    and the list is moved forth by one page width and back. *)
Theorem next_then_prev :
  forall s : t,
    _enabled s = true ->
    navigable s ->
    _currentPage s < _pages s ->
    exists s1 s2,
      next s = Normal This s1 /\
      prev s1 = Normal This s2 /\
      _currentPage s1 = _currentPage s + 1 /\
      _currentPage s2 = _currentPage s /\
      translations s2 =
        translations s ++
        [(- _pageWidth s * inject_Z (_currentPage s + 1 - 1))%Q;
         (- _pageWidth s * inject_Z (_currentPage s - 1))%Q].
Proof.
  intros s E Nv L.
  assert (P : page_in_range s) by (destruct Nv as (P & _); exact P).
  unfold page_in_range in P.
  destruct (select_goes s (_currentPage s + 1)) as (a & Ra & Ca & Ta & _);
    auto; try lia.
  { destruct Nv as (_ & _ & A). exact A. }
  { apply navigable_thumbs; [exact Nv|lia]. }
  pose proof (next_emits_after_select s a This Ra) as Rn.
  set (s1 := set_trace (trace a ++ [Emit "next" []]) a) in Rn.
  destruct (call_turns CallNext s s1) as [S C];
    [cbn [call]; rewrite Rn; reflexivity|].
  assert (Nv1 : navigable s1) by (apply (navigable_kept s s1 Nv S C)).
  assert (C1 : _currentPage s1 = _currentPage s + 1) by exact Ca.
  assert (T1 : translations s1 =
               translations s ++
               [(- _pageWidth s * inject_Z (_currentPage s + 1 - 1))%Q]).
  { unfold s1. rewrite translations_log. cbn. rewrite app_nil_r. exact Ta. }
  unfold steady in S.
  destruct S as (SE & _ & SP & _ & SW & _).
  destruct (select_goes s1 (_currentPage s1 - 1)) as (b & Rb & Cb & Tb & _);
    try lia.
  { congruence. }
  { destruct Nv1 as (_ & _ & A). exact A. }
  { apply navigable_thumbs; [exact Nv1|lia]. }
  pose proof (prev_emits_after_select s1 b This Rb) as Rp.
  exists s1. eexists. split; [exact Rn|]. split; [exact Rp|].
  split; [exact C1|]. split; [cbn; lia|].
  rewrite translations_log. cbn [translate_of]. rewrite app_nil_r.
  rewrite Tb, T1, SW, <- app_assoc. cbn [app].
  replace (_currentPage s1 - 1 - 1) with (_currentPage s - 1) by lia.
  reflexivity.
Qed.

Lemma next_then_prev_witness :
  exists s1 s2,
    next ten_items = Normal This s1 /\
    prev s1 = Normal This s2 /\
    _currentPage s1 = _currentPage ten_items + 1 /\
    _currentPage s2 = _currentPage ten_items /\
    translations s2 =
      translations ten_items ++
      [(- _pageWidth ten_items * inject_Z (_currentPage ten_items + 1 - 1))%Q;
       (- _pageWidth ten_items * inject_Z (_currentPage ten_items - 1))%Q].
Proof.
  apply (next_then_prev ten_items).
  - reflexivity.
  - split; [|split].
    + vm_compute. split; discriminate.
    + vm_compute. discriminate.
    + vm_compute. discriminate.
  - vm_compute. reflexivity.
Defined.

(** *** Asynchronous items *)

Lemma skipn_length_app {A : Type} (l1 l2 : list A) :
  skipn (List.length l1) (l1 ++ l2) = l2.
Proof. induction l1 as [|x l1 IH]; cbn; auto. Qed.

Lemma slice_last_of_appended {A : Type} (l1 l2 : list A) (k : Z) :
  0 < k -> Z.to_nat k = List.length l2 -> slice_last (l1 ++ l2) k = l2.
Proof.
  intros P E. unfold slice_last.
  replace (k =? 0) with false by (symmetry; apply Z.eqb_neq; lia).
  rewrite length_app, E.
  replace (List.length l1 + List.length l2 - List.length l2)%nat
    with (List.length l1) by lia.
  apply skipn_length_app.
Qed.

(** X13: [_loadAsyncItems] on a non-negative budget only appends: the
    children of the list are those it found followed by
    [min(budget, needed)] placeholders (none when the budget is zero or
    nothing is needed, and then nothing at all changes); after an
    injection [_items] is the list's children and the [itemsadd]
    notification carries exactly the new placeholders. *)
Theorem loadAsyncItems_appends_placeholders :
  forall s : t,
    0 <= _async s ->
    let k := if (_async s =? 0) || (needed s <? 1) then 0
             else Z.min (_async s) (needed s) in
    let new := repeat (async_item s) (Z.to_nat k) in
    exists s',
      _loadAsyncItems s = Normal tt s' /\
      list_children s' = list_children s ++ new /\
      if k =? 0 then s' = s
      else _items s' = list_children s'
           /\ trace s' = trace s ++ [Emit "itemsadd" new].
Proof.
  intros s A k new. rewrite (loadAsyncItems_returns s A).
  eexists. split; [reflexivity|]. unfold new, k.
  destruct (_async s =? 0) eqn:A0; cbn [orb].
  { cbn. rewrite app_nil_r. auto. }
  destruct (needed s <? 1) eqn:N1.
  { cbn. rewrite app_nil_r. auto. }
  apply Z.eqb_neq in A0. apply Z.ltb_ge in N1.
  replace (Z.min (_async s) (needed s) =? 0) with false
    by (symmetry; apply Z.eqb_neq; lia).
  unfold with_placeholders. cbn.
  split; [reflexivity|]. split; [reflexivity|].
  rewrite slice_last_of_appended; [reflexivity|lia|].
  rewrite repeat_length. reflexivity.
Qed.

(** One item and a budget of one behind a mask that holds two. *)
Lemma loadAsyncItems_appends_placeholders_witness :
  let s := set_limitPerPage 2
             (fresh true true (with_async 1) 1 (measures 400)) in
  exists s',
    _loadAsyncItems s = Normal tt s' /\
    list_children s' = list_children s ++ [async_item s] /\
    _items s' = list_children s' /\
    trace s' = trace s ++ [Emit "itemsadd" [async_item s]].
Proof.
  apply (loadAsyncItems_appends_placeholders
           (set_limitPerPage 2
              (fresh true true (with_async 1) 1 (measures 400)))).
  vm_compute. discriminate.
Defined.

(** X14: when [_items] is the list's children and the budget covers what
    the current page still needs, [_loadAsyncItems] completes the page:
    the items are the old ones followed by the needed placeholders, as
    many as [currentPage * limitPerPage]. *)
Theorem loadAsyncItems_completes_the_page :
  forall s : t,
    _items s = list_children s ->
    1 <= needed s <= _async s ->
    exists s',
      _loadAsyncItems s = Normal tt s' /\
      _items s' =
        _items s ++ repeat (async_item s) (Z.to_nat (needed s)) /\
      Z.of_nat (List.length (_items s')) = _currentPage s * _limitPerPage s.
Proof.
  intros s I [N A]. rewrite (loadAsyncItems_returns s) by lia.
  replace (_async s =? 0) with false by (symmetry; apply Z.eqb_neq; lia).
  replace (needed s <? 1) with false by (symmetry; apply Z.ltb_ge; lia).
  cbn [orb]. replace (Z.min (_async s) (needed s)) with (needed s) by lia.
  eexists. split; [reflexivity|]. unfold with_placeholders. cbn.
  rewrite I. split; [reflexivity|].
  rewrite length_app, repeat_length. unfold needed in *. rewrite I in *. lia.
Qed.

Lemma loadAsyncItems_completes_the_page_witness :
  let s := set_limitPerPage 2
             (fresh true true (with_async 1) 1 (measures 400)) in
  exists s',
    _loadAsyncItems s = Normal tt s' /\
    _items s' = _items s ++ repeat (async_item s) (Z.to_nat (needed s)) /\
    Z.of_nat (List.length (_items s')) = _currentPage s * _limitPerPage s.
Proof.
  apply (loadAsyncItems_completes_the_page
           (set_limitPerPage 2
              (fresh true true (with_async 1) 1 (measures 400)))).
  - reflexivity.
  - vm_compute. split; discriminate.
Defined.

(** *** ARIA *)






(** *** Refreshing *)

Lemma settled_refl (s : t) : settled s s.
Proof. unfold settled. repeat split; auto. Qed.

Lemma settled_trans (a b c : t) : settled a b -> settled b c -> settled a c.
Proof.
  unfold settled. intros (A1 & A2 & A3 & A4 & A5) (B1 & B2 & B3 & B4 & B5).
  repeat split; try congruence. auto.
Qed.

Lemma steady_settled (a b : t) : steady a b -> settled a b.
Proof.
  unfold steady, settled.
  intros (A1 & A2 & _ & _ & _ & A6 & A7 & _ & _ & _ & A11).
  repeat split; auto.
Qed.

Lemma calm_settled (a b : t) : calm a b -> settled a b.
Proof. intros [S _]. apply steady_settled, S. Qed.

Ltac settled_now :=
  unfold settled, in_step; cbn; repeat split; auto; try lia.

Lemma modify_settled (f : t -> t) (s : t) :
  settled s (f s) -> keeps_at settled (modify f) s.
Proof. intros H s' F. cbn in F. injection F as F. subst. exact H. Qed.

Lemma log_settled (e : Effect) (s : t) : keeps_at settled (log e) s.
Proof. eapply keeps_weaken; [apply calm_settled|apply log_calm]. Qed.

Lemma log_at_settled (f : t -> Effect) (s : t) :
  keeps_at settled (fun x => log (f x) x) s.
Proof. intros s' F. cbn in F. injection F as F. subst. settled_now. Qed.

Lemma standbyFX_settled {A : Type} (callback : M A) (s : t) :
  (forall s1, keeps_at settled callback s1) ->
  keeps_at settled (_standbyFX callback) s.
Proof.
  intros H s' F. unfold _standbyFX in F.
  destruct (fx (_options s) && transition s); [|exact (H s s' F)].
  revert s' F.
  apply keeps_bind; [apply settled_trans|apply log_settled|intros ? ? _].
  apply keeps_bind; [apply settled_trans|apply H|intros ? ? _].
  apply keeps_bind; [apply settled_trans|apply log_settled|intros ? ? _].
  apply keeps_ret, settled_refl.
Qed.

Lemma addPagination_settled (s : t) : keeps_at settled _addPagination s.
Proof.
  intros s' F. unfold _addPagination, _removePagination, bind in F.
  destruct (_paginationCreated s) eqn:C; cbn in F; rewrite ?C in F;
    cbn in F; destruct (_pages s <? 0); cbn in F; try discriminate;
    injection F as F; subst; settled_now.
Qed.

Lemma select_settled (page : option Z) (s : t) :
  keeps_at settled (select page) s.
Proof.
  intros s' F. apply steady_settled.
  destruct (select_turns page s s' F) as [S _]. exact S.
Qed.

Lemma updatePages_settled (s : t) : keeps_at settled _updatePages s.
Proof.
  unfold _updatePages.
  apply keeps_bind; [apply settled_trans| |intros ? ? _].
  { apply modify_settled. settled_now. }
  apply keeps_bind; [apply settled_trans| |intros ? ? _].
  { eapply keeps_weaken; [apply calm_settled|apply loadAsyncItems_calm]. }
  apply keeps_bind; [apply settled_trans| |intros ? s2 _].
  { eapply keeps_weaken; [apply calm_settled|apply updateArrows_calm]. }
  intros s' F. cbv beta in F. destruct (pagination (_options s2)).
  - exact (addPagination_settled s2 s' F).
  - cbn in F. injection F as F. subst. apply settled_refl.
Qed.

Lemma updateLimitPerPage_settled (s : t) :
  keeps_at settled _updateLimitPerPage s.
Proof.
  intros s' F. unfold _updateLimitPerPage in F.
  destruct (new_limitPerPage s =? _limitPerPage s).
  { cbn in F. injection F as F. subst. apply settled_refl. }
  revert s' F.
  apply keeps_bind; [apply settled_trans| |intros ? ? _].
  { apply modify_settled. settled_now. }
  apply keeps_bind; [apply settled_trans|apply updatePages_settled|
                     intros ? ? _].
  apply keeps_bind; [apply settled_trans|apply select_settled|intros ? ? _].
  apply keeps_ret, settled_refl.
Qed.

Lemma updateDistribution_settled (s : t) :
  keeps_at settled _updateDistribution s.
Proof.
  intros s' F. unfold _updateDistribution in F.
  destruct (unchanged_distribution s).
  { cbn in F. injection F as F. subst. apply settled_refl. }
  revert s' F.
  apply keeps_bind; [apply settled_trans| |intros ? ? _].
  { apply modify_settled. settled_now. }
  apply keeps_bind; [apply settled_trans| |intros ? ? _].
  { apply modify_settled. settled_now. }
  apply keeps_bind; [apply settled_trans| |intros ? ? _].
  { apply modify_settled. settled_now. }
  apply keeps_bind; [apply settled_trans| |intros ? ? _].
  { apply standbyFX_settled. intros y. apply log_at_settled. }
  apply keeps_bind; [apply settled_trans| |intros ? ? _].
  { apply log_at_settled. }
  apply keeps_bind; [apply settled_trans|apply log_settled|intros ? ? _].
  apply standbyFX_settled. intros y.
  apply (log_at_settled
           (fun x => Translate (- _pageWidth x * inject_Z (_currentPage x - 1)))).
Qed.

(** The mask width and the collection after a [refresh] that returned. *)
Lemma refresh_settles (w : Q) (s s' : t) :
  refresh w s = Normal This s' ->
  Qeq_bool w (_maskWidth s') = true /\ in_step s'.
Proof.
  unfold refresh. intros H. unfold bind at 1 in H.
  match type of H with
  | match ?c with _ => _ end = _ => destruct c as [[] s1|s1|] eqn:E1
  end; try discriminate.
  unfold bind at 1 in H.
  match type of H with
  | match ?c with _ => _ end = _ => destruct c as [[] s2|s2|] eqn:E2
  end; try discriminate.
  cbn in H. injection H as H. subst s2.
  assert (W : Qeq_bool w (_maskWidth s1) = true).
  { destruct (Qeq_bool w (_maskWidth s)) eqn:QE; cbn [negb] in E1.
    - injection E1 as E1. subst s1. exact QE.
    - unfold bind at 1 in E1. unfold modify at 1 in E1.
      cbv beta iota in E1.
      match type of E1 with
      | ?r ?s0 = _ =>
          assert (K : keeps_at settled r s0)
      end.
      { apply keeps_bind; [apply settled_trans|
                           apply updateLimitPerPage_settled|intros ? ? _].
        apply keeps_bind; [apply settled_trans|
                           apply updateDistribution_settled|intros ? ? _].
        apply log_settled. }
      specialize (K s1). rewrite E1 in K.
      destruct (K eq_refl) as (_ & _ & M & _). rewrite M. cbn.
      apply Qeq_bool_iff. reflexivity. }
  destruct (Nat.eqb (List.length (list_children s1)) (List.length (_items s1)))
    eqn:NE; cbn [negb] in E2.
  - injection E2 as E2. subst s'. split; [exact W|].
    apply Nat.eqb_eq in NE. exact NE.
  - unfold bind at 1 in E2. unfold modify at 1 in E2.
    cbv beta iota in E2.
    match type of E2 with
    | ?r ?s0 = _ =>
        assert (K : keeps_at settled r s0)
    end.
    { apply keeps_bind; [apply settled_trans|apply updatePages_settled|
                         intros ? ? _].
      apply keeps_bind; [apply settled_trans| |intros ? ? _].
      { intros x F. destruct (_pages s0 <? _currentPage s0).
        - revert x F.
          apply keeps_bind; [apply settled_trans| |intros ? ? _].
          + apply standbyFX_settled. intros x. apply select_settled.
          + apply keeps_ret, settled_refl.
        - cbn in F. injection F as F. subst. apply settled_refl. }
      apply log_settled. }
    specialize (K s'). rewrite E2 in K.
    destruct (K eq_refl) as (_ & _ & M & _ & I). cbn in M, I.
    rewrite M. split; [exact W|]. apply I. reflexivity.
Qed.

(** X16: [refresh] settles: once a [refresh] has returned, another one
    that measures the same mask width, with no change to the list in
    between, changes nothing and emits nothing. *)
Theorem refresh_again_changes_nothing :
  forall (w : Q) (s s' : t),
    refresh w s = Normal This s' ->
    refresh w s' = Normal This s'.
Proof.
  intros w s s' H. destruct (refresh_settles w s s' H) as [W I].
  unfold refresh, bind. rewrite W. cbn [negb].
  unfold in_step in I. rewrite I, Nat.eqb_refl. reflexivity.
Qed.

Lemma refresh_again_changes_nothing_witness :
  exists s',
    refresh 900 ten_items = Normal This s' /\
    refresh 900 s' = Normal This s'.
Proof.
  eexists. split; [vm_compute; reflexivity|].
  apply (refresh_again_changes_nothing 900 ten_items).
  vm_compute. reflexivity.
Defined.

(** *** Construction *)

Lemma new_limitPerPage_positive (s : t) :
  (0 <= _maskWidth s)%Q ->
  0 < _itemOuterWidth s ->
  match limitPerPage (_options s) with
  | Some M => 1 <= M
  | None => True
  end ->
  1 <= new_limitPerPage s.
Proof.
  intros W I HM. unfold new_limitPerPage.
  rewrite js_or_floor by (apply Qdiv_nonneg_Z; assumption).
  destruct (limitPerPage (_options s)) as [M|]; [|lia].
  destruct (M <? _); lia.
Qed.

Lemma Qceiling_first_item (l : Z) :
  1 <= l -> Qceiling (inject_Z 1 / inject_Z l) = 1.
Proof.
  intros L. pose proof (Qceiling_div_spec 1 l L) as H. cbv zeta in H. nia.
Qed.

(** What [_updatePages] leaves, field by field. *)
Lemma updatePages_result (s : t) :
  1 <= _limitPerPage s ->
  0 <= _async s ->
  (pagination (_options s) = false -> _paginationCreated s = false) ->
  exists s',
    _updatePages s = Normal tt s' /\
    _pages s' =
      Qceiling (inject_Z (Z.of_nat (List.length (_items s)) + _async s)
                / inject_Z (_limitPerPage s)) /\
    _currentPage s' = _currentPage s /\
    _limitPerPage s' = _limitPerPage s /\
    _async s' = _async s /\
    _enabled s' = _enabled s /\
    thumb_per_page s' /\
    _options s' = _options s /\
    (pagination (_options s) = false -> _paginationCreated s' = false).
Proof.
  intros L A PC. unfold _updatePages, bind, modify.
  set (p := Qceiling _).
  assert (P : 0 <= p).
  { apply Qceiling_nonneg, Qdiv_nonneg; lia. }
  rewrite loadAsyncItems_returns by exact A.
  match goal with
  | |- context [_updateArrows (if ?c then ?a else ?b)] =>
      set (s2 := if c then a else b)
  end.
  assert (K : _pages s2 = p /\ _options s2 = _options s
              /\ _currentPage s2 = _currentPage s
              /\ _limitPerPage s2 = _limitPerPage s
              /\ _async s2 = _async s
              /\ _enabled s2 = _enabled s
              /\ _paginationCreated s2 = _paginationCreated s).
  { unfold s2. destruct (orb _ _); cbn; repeat split; lia. }
  clearbody s2. destruct K as (K1 & K2 & K3 & K4 & K5 & K6 & K7).
  assert (S3 : exists s3, _updateArrows s2 = Normal tt s3
               /\ _pages s3 = p /\ _options s3 = _options s
               /\ _currentPage s3 = _currentPage s
               /\ _limitPerPage s3 = _limitPerPage s
               /\ _async s3 = _async s
               /\ _enabled s3 = _enabled s
               /\ _paginationCreated s3 = _paginationCreated s).
  { destruct (updateArrows_cases s2) as [R|(a & b & R)]; rewrite R;
      eexists; (split; [reflexivity|]); cbn; repeat split; auto. }
  destruct S3 as (s3 & R3 & J1 & J2 & J3 & J4 & J5 & J6 & J7).
  rewrite R3. rewrite J2.
  destruct (pagination (_options s)) eqn:PG.
  - destruct (addPagination_builds s3) as (s4 & R4 & C4 & _ & N4 & P4 & Q4);
      [lia|].
    exists s4. split; [exact R4|].
    unfold _addPagination, _removePagination, bind in R4.
    assert (F : _limitPerPage s4 = _limitPerPage s3
                /\ _async s4 = _async s3 /\ _enabled s4 = _enabled s3
                /\ _options s4 = _options s3).
    { destruct (_paginationCreated s3) eqn:C3; cbn in R4;
        rewrite ?C3 in R4; cbn in R4;
        destruct (_pages s3 <? 0); try discriminate;
        injection R4 as R4; subst s4; cbn; auto. }
    destruct F as (F1 & F2 & F3 & F4).
    unfold thumb_per_page. repeat split; congruence.
  - exists s3. split; [reflexivity|].
    assert (C3 : _paginationCreated s3 = false)
      by (rewrite J7; apply PC; reflexivity).
    unfold thumb_per_page. repeat split; auto.
    intros C. rewrite C3 in C. discriminate.
Qed.

(** What [_updateDistribution] leaves alone; it always returns. *)
Lemma updateDistribution_returns (s : t) :
  exists s',
    _updateDistribution s = Normal tt s' /\
    _currentPage s' = _currentPage s /\
    _pages s' = _pages s /\
    _limitPerPage s' = _limitPerPage s /\
    _async s' = _async s /\
    _enabled s' = _enabled s /\
    _paginationCreated s' = _paginationCreated s /\
    pagination_children s' = pagination_children s.
Proof.
  unfold _updateDistribution.
  destruct (unchanged_distribution s).
  { exists s. repeat split. }
  unfold _standbyFX. step.
  destruct (fx (_options s) && transition s) eqn:FX; step;
    rewrite ?FX; step; rewrite ?FX; step;
    eexists; (split; [reflexivity|]); cbn; repeat split.
Qed.

(** X17: construction on a list with at least one item, with a mask width
    [>= 0], an item width [> 0], a non-negative [async] and no
    [limitPerPage] below 1, returns: the Carousel starts on page 1 with at
    least one item per page, the current page lies between 1 and the
    number of pages, and the pagination (if any) has one thumbnail per
    page. *)
Theorem init_is_navigable :
  forall (enabled support : bool) (o : Options) (lis : nat) (m : Measures),
    (0 <= mask_width m)%Q ->
    0 < item_css_width m ->
    0 <= async o ->
    (1 <= lis)%nat ->
    match limitPerPage o with
    | Some M => 1 <= M
    | None => True
    end ->
    exists s',
      _init enabled support o lis m = Normal tt s' /\
      _currentPage s' = 1 /\
      1 <= _limitPerPage s' /\
      navigable s' /\
      _enabled s' = enabled.
Proof.
  intros enabled support o lis m W I A N HM. unfold _init.
  pose (P0 := fun x : t =>
    _limitPerPage x = 0 /\ _currentPage x = 1 /\ _pages x = 0
    /\ _async x = async o /\ _options x = o
    /\ _maskWidth x = mask_width m /\ _itemOuterWidth x = item_css_width m
    /\ _items x = repeat Li lis /\ _enabled x = enabled
    /\ (pagination o = false -> _paginationCreated x = false)).
  assert (S0 : exists x,
            ((if negb (fx o) then log AddNoFx else ret tt) ;;
             (if negb support then log ListAbsolute else ret tt) ;;
             (if pagination o then _addPagination else ret tt) ;;
             (if arrows o then _addArrows else ret tt))
              (fresh enabled support o lis m) = Normal tt x /\ P0 x).
  { unfold P0.
    destruct (fx o), support, (pagination o) eqn:PG, (arrows o);
      cbn; eexists; (split; [reflexivity|]); cbn;
      repeat split; auto; discriminate. }
  destruct S0 as (x & R0 & X1 & X2 & X3 & X4 & X5 & X6 & X7 & X8 & X9 & X10).
  assert (R : forall k : unit -> M unit,
            ((if negb (fx o) then log AddNoFx else ret tt) ;;
             (if negb support then log ListAbsolute else ret tt) ;;
             (if pagination o then _addPagination else ret tt) ;;
             (if arrows o then _addArrows else ret tt) ;;
             k tt) (fresh enabled support o lis m) = k tt x).
  { intros k. revert R0. unfold bind.
    destruct ((if negb (fx o) then log AddNoFx else ret tt)
                (fresh enabled support o lis m)) as [[] a1|a1|];
      try discriminate.
    destruct ((if negb support then log ListAbsolute else ret tt) a1)
      as [[] a2|a2|]; try discriminate.
    destruct ((if pagination o then _addPagination else ret tt) a2)
      as [[] a3|a3|]; try discriminate.
    destruct ((if arrows o then _addArrows else ret tt) a3)
      as [[] a4|a4|]; try discriminate.
    intros E. injection E as E. subst. reflexivity. }
  rewrite (R (fun _ => _updateLimitPerPage ;; _updateDistribution)).
  clear R R0.
  set (l := new_limitPerPage x).
  assert (L1 : 1 <= l).
  { apply new_limitPerPage_positive; rewrite ?X5, ?X6, ?X7; assumption. }
  unfold bind at 1. unfold _updateLimitPerPage. fold l.
  replace (l =? _limitPerPage x) with false
    by (symmetry; apply Z.eqb_neq; lia).
  unfold bind at 1. unfold modify. unfold bind at 1.
  destruct (updatePages_result (set_limitPerPage l x))
    as (y & Ry & Y1 & Y2 & Y3 & Y4 & Y5 & Y6 & _);
    [exact L1|cbn; lia|cbn; rewrite X5; exact X10|].
  rewrite Ry. cbn in Y1, Y2, Y3, Y4, Y5.
  rewrite X1, X2. cbn [Z.sub Z.mul Z.add Z.opp Z.pos_sub].
  rewrite Qceiling_first_item by exact L1.
  unfold bind at 1.
  rewrite (select_guarded y 1) by (right; left; congruence).
  unfold ret.
  destruct (updateDistribution_returns y)
    as (z & Rz & Z1 & Z2 & Z3 & Z4 & Z5 & Z6 & Z7).
  exists z. split; [exact Rz|].
  assert (PG : 1 <= _pages y).
  { rewrite Y1, X8, repeat_length, X4.
    pose proof (Qceiling_div_spec (Z.of_nat lis + async o) l L1) as C.
    cbv zeta in C. nia. }
  split; [congruence|]. split; [lia|]. split; [|congruence].
  unfold navigable, page_in_range, thumb_per_page in *.
  rewrite Z1, Z2, Z4, Z6, Z7. repeat split; try lia. exact Y6.
Qed.

Lemma init_is_navigable_witness :
  exists s',
    _init true true with_pagination 2 (measures 200) = Normal tt s' /\
    _currentPage s' = 1 /\
    1 <= _limitPerPage s' /\
    navigable s' /\
    _enabled s' = true.
Proof.
  apply (init_is_navigable true true with_pagination 2 (measures 200)).
  - vm_compute. discriminate.
  - vm_compute. reflexivity.
  - vm_compute. discriminate.
  - lia.
  - exact I.
Defined.

(** *** Disabled component, and resizing *)

(** X18: on a disabled Carousel [prev] and [next] move nothing: each
    returns the instance and leaves every field as it was, except that its
    notification ([prev], [next]) is emitted all the same. *)
Theorem disabled_prev_and_next_only_notify :
  forall s : t,
    _enabled s = false ->
    prev s = Normal This (set_trace (trace s ++ [Emit "prev" []]) s) /\
    next s = Normal This (set_trace (trace s ++ [Emit "next" []]) s).
Proof.
  intros s E. split.
  - apply (prev_emits_after_select s s This).
    apply select_guarded. left. exact E.
  - apply (next_emits_after_select s s This).
    apply select_guarded. left. exact E.
Qed.

(** Ten items of 200px behind a mask of 600px, built disabled: four
    pages, on the first one. *)
Lemma disabled_prev_and_next_only_notify_witness :
  let s := state_or ten_items
             (_init false true _defaults 10 (measures 600)) in
  _pages s = 4 /\
  prev s = Normal This (set_trace (trace s ++ [Emit "prev" []]) s) /\
  next s = Normal This (set_trace (trace s ++ [Emit "next" []]) s).
Proof.
  split; [reflexivity|].
  apply (disabled_prev_and_next_only_notify
           (state_or ten_items
              (_init false true _defaults 10 (measures 600)))).
  reflexivity.
Defined.



End CarouselFacts.
